(** * ai-clips-maker: the TextTiling boundary detector and the clip finder

    A shallow embedding of
      - [txtslice/tiler_algorithm.py]  ([TextTiler], [smooth], [TextTilerConfigManager]),
      - [txtslice/segment_picker.py]   ([ClipFinder]),
      - [txtslice/matcher.py]          ([MediaSegment]),
      - [utils/pytorch.py]             ([max_magnitude_2d]),
    followed by the properties of the specification that concern them.

    Numbers.  Tensor elements (torch floats) and time stamps (Python floats)
    are kept abstract: the code is embedded over any carrier that offers the
    arithmetic and the comparisons the Python code uses ([Scalar]).  The only
    law that is ever needed is that [x < x] is false, which IEEE floats
    (NaN included) and exact rationals both satisfy.  Character offsets,
    window sizes and lengths are Python ints, hence [Z].  Two instances make
    every function runnable: exact rationals ([QNum]) and the binary64
    floats of the hardware ([FloatNum]).

    Exceptions are values of [result]; a Python sequence or a 1-D tensor is
    a [list], a 2-D tensor the list of its rows; a tensor of boundary flags,
    which holds 0 and 1 only, is a list of booleans. *)

From Stdlib Require Import String.
From Stdlib Require Import List ZArith Lia Bool QArith Qabs Floats Sorted.
Import ListNotations.
Local Open Scope Z_scope.

(* ================================================================== *)
(** ** Exceptions *)

Inductive error : Type :=
| ClipFinderError      (* segment_picker.py, _text_tile *)
| TextTilerError       (* tiler_algorithm.py, unknown pool method or cutoff policy *)
| ConfigError          (* config_manager.py, assert_valid_config *)
| ValueError           (* smooth, numpy.convolve *)
| IndexError           (* tensor index out of range *)
| RuntimeError.        (* torch.empty(-1), torch.stack([]) *)

(** What a call does: it returns, or it raises.  [OutOfFuel] belongs to the
    model only: the one [while] loop of the code is run with a bounded number
    of iterations, and [OutOfFuel] is what is left when the bound is used up
    with the loop condition still true. *)
Inductive result (A : Type) : Type :=
| Ok (a : A)
| Raise (e : error)
| OutOfFuel.
Arguments Ok {A} a.
Arguments Raise {A} e.
Arguments OutOfFuel {A}.

Definition bind {A B} (m : result A) (f : A -> result B) : result B :=
  match m with
  | Ok a => f a
  | Raise e => Raise e
  | OutOfFuel => OutOfFuel
  end.

Notation "x <- m ;; k" := (bind m (fun x => k))
  (at level 61, m at next level, right associativity).
Notation "' pat <- m ;; k" := (bind m (fun x => match x with pat => k end))
  (at level 61, pat pattern, m at next level, right associativity).

Definition is_ok {A} (m : result A) : bool :=
  match m with Ok _ => true | _ => false end.

(** The call came to an end, by a value or by an exception. *)
Definition halts {A} (m : result A) : bool :=
  match m with OutOfFuel => false | _ => true end.

(* ================================================================== *)
(** ** Python sequences *)

Module Py.

(** [PySlice_AdjustIndices] for one bound: a negative index counts from
    the end, and what is still out of range is clipped (to [-1] or
    [len - 1] when the step is negative, to [0] or [len] otherwise). *)
Definition adjust (len i : Z) (neg_step : bool) : Z :=
  if i <? 0 then
    if i + len <? 0 then (if neg_step then -1 else 0) else i + len
  else if i >=? len then (if neg_step then len - 1 else len)
  else i.

(** [l[start:stop]] *)
Definition slice {A} (l : list A) (start stop : Z) : list A :=
  let len := Z.of_nat (length l) in
  let a := adjust len start false in
  let b := adjust len stop false in
  firstn (Z.to_nat (b - a)) (skipn (Z.to_nat a) l).

(** [l[start:stop:-1]]: the items at [start, start-1, ..., stop+1]. *)
Definition slice_rev {A} (l : list A) (start stop : Z) : list A :=
  let len := Z.of_nat (length l) in
  let a := adjust len start true in
  let b := adjust len stop true in
  rev (firstn (Z.to_nat (a - b)) (skipn (Z.to_nat (b + 1)) l)).

(** [l[i]] for [0 <= i], with a default where Python would raise; the
    callers below only use it in range. *)
Definition item {A} (d : A) (l : list A) (i : Z) : A :=
  nth (Z.to_nat i) l d.

(** [range(n)] *)
Definition range (n : nat) : list nat := seq 0 n.

End Py.

(* ================================================================== *)
(** ** Numbers *)

Class Scalar (T : Type) : Type := {
  of_Z  : Z -> T;
  add   : T -> T -> T;
  sub   : T -> T -> T;
  mul   : T -> T -> T;
  div   : T -> T -> T;
  sqrt  : T -> T;
  absv  : T -> T;
  ltb   : T -> T -> bool;        (* x < y  *)
  leb   : T -> T -> bool;        (* x <= y *)
  eqb   : T -> T -> bool;        (* x == y *)
  ltb_irrefl : forall x, ltb x x = false
}.

Section Numeric.
Context {T : Type} `{Scalar T}.

Definition zero : T := of_Z 0.
Definition one  : T := of_Z 1.

(** [x > y] is [y < x]. *)
Definition gtb (x y : T) : bool := ltb y x.

(** [bool(x)] for a number: [x != 0]. *)
Definition truthy (x : T) : bool := negb (eqb x zero).

Definition sum (l : list T) : T := fold_left add l zero.

(** [torch.mean] of a 1-D tensor. *)
Definition mean (l : list T) : T :=
  div (sum l) (of_Z (Z.of_nat (length l))).

(** [torch.std(_, unbiased=False)]: the population standard deviation. *)
Definition std_population (l : list T) : T :=
  let m := mean l in
  sqrt (mean (map (fun x => mul (sub x m) (sub x m)) l)).

(** Python's builtin [max] over an iterable of numbers: the first item is
    kept until a strictly greater one is met.  [d] stands for the
    [ValueError] of an empty iterable, which the callers never pass. *)
Definition py_max (d : T) (l : list T) : T :=
  match l with
  | [] => d
  | x :: xs => fold_left (fun m it => if gtb it m then it else m) xs x
  end.

Definition dot (x y : list T) : T :=
  sum (map (fun p => mul (fst p) (snd p)) (combine x y)).

(** [torch.linalg.norm(v, ord=2)] *)
Definition norm2 (v : list T) : T := sqrt (dot v v).

(** [F.cosine_similarity(x, y, dim=0)] with its default [eps = 1e-8]:
    [x.y / (max(|x|, eps) * max(|y|, eps))]. *)
Definition eps : T := div one (of_Z 100000000).
Definition clamp_min (x lo : T) : T := if ltb x lo then lo else x.
Definition cosine_similarity (x y : list T) : T :=
  div (dot x y) (mul (clamp_min (norm2 x) eps) (clamp_min (norm2 y) eps)).

(** [numpy.convolve(a, v, mode="same")]: the operands are swapped when
    [v] is the longer one; the result has the length of the longer
    operand and is the centre of the full convolution, which starts
    [n2 - 1 - n2 // 2] items in ([n2] the shorter length). *)
Definition convolve_centre (a v : list T) : list T :=
  let n2 := Z.of_nat (length v) in
  let off := n2 - 1 - n2 / 2 in
  map (fun j =>
         sum (map (fun m =>
                     let i := Z.of_nat j + off - Z.of_nat m in
                     if (0 <=? i) && (i <? Z.of_nat (length a))
                     then mul (Py.item zero a i) (nth m v zero)
                     else zero)
                  (Py.range (length v))))
      (Py.range (length a)).

Definition np_convolve_same (a v : list T) : result (list T) :=
  match a, v with
  | [], _ | _, [] => Raise ValueError
  | _, _ =>
    if (length a <? length v)%nat
    then Ok (convolve_centre v a)
    else Ok (convolve_centre a v)
  end.

End Numeric.

(* ================================================================== *)
(** ** utils/pytorch.py and the pooling of a group of rows *)

(** A row of an [N x E] tensor; the tensor is the list of its rows. *)
Definition vec (T : Type) : Type := list T.

Section Pooling.
Context {T : Type} `{Scalar T}.

(** The number of columns, read off the first row. *)
Definition width (rows : list (vec T)) : nat :=
  match rows with [] => O | r :: _ => length r end.

Definition column (rows : list (vec T)) (j : nat) : list T :=
  map (fun r => nth j r zero) rows.

(** [torch.mean(tensor, dim=0)] *)
Definition torch_mean_dim0 (rows : list (vec T)) : vec T :=
  map (fun j => mean (column rows j)) (Py.range (width rows)).

(** [max_magnitude_2d(tensor, dim=0)]: in every column the entry whose
    absolute value is largest ([torch.max] returns the index of the first
    maximal value), with its sign. *)
Definition max_magnitude_2d (rows : list (vec T)) : vec T :=
  map (fun j =>
         match column rows j with
         | [] => zero
         | x :: xs =>
           fold_left (fun m it => if gtb (absv it) (absv m) then it else m) xs x
         end)
      (Py.range (width rows)).

End Pooling.

(* ================================================================== *)
(** ** txtslice/tiler_algorithm.py *)

Module TextTiler.
Section TextTiler.
Context {T : Type} `{Scalar T}.
Local Open Scope string_scope.
Local Open Scope Z_scope.

(** [BOUNDARY = 1], the value of a set flag. *)
Definition BOUNDARY : bool := true.

(** *** TextTilerConfigManager: [None] means valid, [Some msg] is the
    error message (without the offending value the code formats into it). *)

Definition check_valid_k (k : Z) : option string :=
  if k <? 2 then Some "Invalid k value. Must be >= 2." else None.

Definition check_valid_pool_method (method : string) : option string :=
  if existsb (String.eqb method) ["mean"; "max"] then None
  else Some "Invalid pool_method. Must be 'mean' or 'max'.".

Definition check_valid_smoothing_width (width : Z) : option string :=
  if width <? 3 then Some "Invalid smoothing_width. Must be >= 3." else None.

Definition check_valid_cutoff_policy (policy : string) : option string :=
  if existsb (String.eqb policy) ["average"; "low"; "high"] then None
  else Some "Invalid cutoff_policy. Must be 'average', 'low', or 'high'.".

Definition or_else (a b : option string) : option string :=
  match a with Some m => Some m | None => b end.

(** The checkers run in the order of the [checkers] dict; the first
    message wins. *)
Definition check_valid_config
    (k : Z) (window_compare_pool_method embedding_aggregation_pool_method : string)
    (smoothing_width : Z) (cutoff_policy : string) : option string :=
  or_else (check_valid_cutoff_policy cutoff_policy)
 (or_else (check_valid_pool_method embedding_aggregation_pool_method)
 (or_else (check_valid_k k)
 (or_else (check_valid_smoothing_width smoothing_width)
          (check_valid_pool_method window_compare_pool_method)))).

Definition assert_valid_config
    (k : Z) (window_compare_pool_method embedding_aggregation_pool_method : string)
    (smoothing_width : Z) (cutoff_policy : string) : result unit :=
  match check_valid_config k window_compare_pool_method
          embedding_aggregation_pool_method smoothing_width cutoff_policy with
  | Some _ => Raise ConfigError
  | None => Ok tt
  end.

(** *** TextTiler *)

Definition _get_pool_method (name : string) : result (list (vec T) -> vec T) :=
  if String.eqb name "mean" then Ok torch_mean_dim0
  else if String.eqb name "max" then Ok max_magnitude_2d
  else Raise TextTilerError.

Definition _calc_gap_scores
    (embeddings : list (vec T)) (k : Z) (pool_method : string) : result (list T) :=
  pool <- _get_pool_method pool_method ;;
  let N := Z.of_nat (length embeddings) in
  if (N - 1 <? 0)%Z then Raise RuntimeError     (* torch.empty(-1) *)
  else
    Ok (map (fun i : nat =>
               let i := Z.of_nat i in
               let left := Py.slice embeddings (Z.max 0 (i - k + 1)) (i + 1) in
               let right := Py.slice embeddings (i + 1) (Z.min (i + 1 + k) N) in
               cosine_similarity (pool left) (pool right))
            (Py.range (Z.to_nat (N - 1)))).

(** [smooth(x, window_len, window="flat")]; [x] is 1-D and the window
    type is the valid ["flat"], so those two checks never fire. *)
Definition smooth (x : list T) (window_len : Z) : result (list T) :=
  if (Z.of_nat (length x) <? window_len)%Z then Raise ValueError
  else if (window_len <? 3)%Z then Ok x
  else
    let two := of_Z 2 in
    let x0 := Py.item zero x 0 in
    let xlast := last x zero in
    let s := (map (fun v => sub (mul two x0) v) (Py.slice_rev x window_len 1)
              ++ x
              ++ map (fun v => sub (mul two xlast) v)
                     (Py.slice_rev x (-1) (- window_len)))%list in
    let w := repeat one (Z.to_nat window_len) in
    let wsum := sum w in
    y <- np_convolve_same (map (fun v => div v wsum) w) s ;;
    Ok (Py.slice y (window_len - 1) (- window_len + 1)).

Definition _smooth_scores (scores : list T) (width : Z) : result (list T) :=
  smooth scores width.

Definition _calc_depth_scores (gap_scores : list T) : list T :=
  let N := Z.of_nat (length gap_scores) in
  map (fun i : nat =>
         let g := nth i gap_scores zero in
         let left_peak :=
           py_max zero
             (map (fun j : nat =>
                     Py.item zero gap_scores (Z.max 0 (Z.of_nat i - Z.of_nat j)))
                  (Py.range (i + 1))) in
         let right_peak :=
           py_max zero
             (map (fun j : nat =>
                     Py.item zero gap_scores (Z.min (N - 1) (Z.of_nat i + Z.of_nat j)))
                  (Py.range (length gap_scores - i))) in
         add (sub left_peak g) (sub right_peak g))
      (Py.range (length gap_scores)).

(** [tensor[i] = v] for [i] in range. *)
Fixpoint set_item {A} (l : list A) (i : nat) (v : A) : list A :=
  match l, i with
  | [], _ => []
  | _ :: l', O => v :: l'
  | x :: l', S i' => x :: set_item l' i' v
  end.

(** The test of the loop body of [_identify_boundaries]. *)
Definition is_peak (depths : list T) (cutoff : T) (i : nat) : bool :=
  let d := Py.item zero depths in
  let M := Z.of_nat (length depths) in
  let i := Z.of_nat i in
  gtb (d i) cutoff
  && gtb (d i) (d (Z.max 0 (i - 1)))
  && gtb (d i) (d (Z.min (i + 1) (M - 1))).

Definition cutoff_of (depths : list T) (policy : string) : option T :=
  let avg := mean depths in
  let std := std_population depths in
  if String.eqb policy "average" then Some avg
  else if String.eqb policy "high" then Some (add avg std)
  else if String.eqb policy "low" then Some (sub avg std)
  else None.

Definition _identify_boundaries (depths : list T) (policy : string)
  : result (list bool) :=
  let N := (length depths + 1)%nat in
  let boundaries := repeat false N in
  match cutoff_of depths policy with
  | None => Raise TextTilerError
  | Some cutoff =>
    let boundaries :=
      fold_left (fun b i => if is_peak depths cutoff i then set_item b i true else b)
                (Py.range (length depths)) boundaries in
    Ok (set_item boundaries (N - 1) BOUNDARY)
  end.

(** The loop of [_pool_embedding_groups], from row [i] on. *)
Fixpoint pool_groups_from
    (pool : list (vec T) -> vec T) (boundaries : list bool)
    (rows : list (vec T)) (i : nat) (group pooled : list (vec T)) : result (list (vec T)) :=
  match rows with
  | [] => Ok pooled
  | e :: rest =>
    let group := (group ++ [e])%list in
    match nth_error boundaries i with
    | None => Raise IndexError
    | Some b =>
      if Bool.eqb b BOUNDARY
      then pool_groups_from pool boundaries rest (S i) [] (pooled ++ [pool group])%list
      else pool_groups_from pool boundaries rest (S i) group pooled
    end
  end.

Definition _pool_embedding_groups
    (embeddings : list (vec T)) (boundaries : list bool) (pool_method : string)
  : result (list (vec T)) :=
  pool <- _get_pool_method pool_method ;;
  pooled <- pool_groups_from pool boundaries embeddings 0 [] [] ;;
  match pooled with
  | [] => Raise RuntimeError                     (* torch.stack([]) *)
  | _ => Ok pooled
  end.

Definition text_tile
    (embeddings : list (vec T)) (k : Z)
    (window_compare_pool_method embedding_aggregation_pool_method : string)
    (smoothing_width : Z) (cutoff_policy : string)
  : result (list bool * list (vec T)) :=
  _ <- assert_valid_config k window_compare_pool_method
         embedding_aggregation_pool_method smoothing_width cutoff_policy ;;
  let N := Z.of_nat (length embeddings) in
  let k := if (k >=? N)%Z then Z.max (N / 5) 2 else k in
  let smoothing_width := if (smoothing_width >=? N)%Z then 2%Z else smoothing_width in
  unsmoothed_scores <- _calc_gap_scores embeddings k window_compare_pool_method ;;
  smoothed_scores <- _smooth_scores unsmoothed_scores smoothing_width ;;
  let depth_scores := _calc_depth_scores smoothed_scores in
  boundaries <- _identify_boundaries depth_scores cutoff_policy ;;
  pooled_embeddings <- _pool_embedding_groups embeddings boundaries
                         embedding_aggregation_pool_method ;;
  Ok (boundaries, pooled_embeddings).

End TextTiler.
End TextTiler.

(** The number of set flags. *)
Definition num_set (flags : list bool) : nat := count_occ Bool.bool_dec flags true.

(* ================================================================== *)
(** ** txtslice/matcher.py *)

Module MediaSegment.
Section MediaSegment.
Context {T : Type} `{Scalar T}.

Record t : Type := Build {
  begin_sec : T;
  finish_sec : T;
  text_start_idx : Z;
  text_end_idx : Z
}.

(** [bool(n)] for a Python int. *)
Definition int_truthy (n : Z) : bool := negb (n =? 0).

(** [MediaSegment.__bool__] *)
Definition __bool__ (self : t) : bool :=
  truthy (begin_sec self)
  && truthy (finish_sec self)
  && int_truthy (text_start_idx self)
  && int_truthy (text_end_idx self).

End MediaSegment.
Arguments t T : clear implicits.
End MediaSegment.

(* ================================================================== *)
(** ** txtslice/segment_picker.py *)

Module ClipFinder.
Section ClipFinder.
Context {T : Type} `{Scalar T}.
Local Open Scope string_scope.
Local Open Scope Z_scope.

(** The dicts the driver works on.  The entries of [get_sentence_info()]
    carry the same four position keys (their other keys are never read
    here), the merged clips carry ["norm"] besides. *)
Record clip : Type := Clip {
  start_char : Z;
  end_char : Z;
  start_time : T;
  end_time : T;
  norm : T
}.

(** The attributes [__init__] stores (the compute device plays no part). *)
Record config : Type := Config {
  _min_clip_duration : T;
  _max_clip_duration : T;
  _cutoff_policy : string;
  _embedding_aggregation_pool_method : string;
  _smoothing_width : Z;
  _window_compare_pool_method : string
}.

(** What [find_clips] reads of a [Transcription]: [get_sentence_info()],
    the embeddings the [TextEmbedder] returns for its sentences,
    [end_time] and [len(get_char_info())]. *)
Record transcription : Type := Transcription {
  sentence_info : list clip;
  sentence_embeddings : list (vec T);
  transcription_end_time : T;
  num_chars : Z
}.

Definition BOUNDARY : bool := true.

(** The quantity [_is_duplicate] compares with 15:
    [abs(seg.start_time - ref.start_time) + abs(seg.end_time - ref.end_time)]. *)
Definition time_delta (seg ref : clip) : T :=
  add (absv (sub (start_time seg) (start_time ref)))
      (absv (sub (end_time seg) (end_time ref))).

(** [_is_duplicate] *)
Fixpoint _is_duplicate (seg : clip) (existing : list clip) : bool :=
  match existing with
  | [] => false
  | ref :: rest =>
    if ltb (time_delta seg ref) (of_Z 15)
    then true
    else _is_duplicate seg rest
  end.

(** [_remove_duplicates] *)
Fixpoint _remove_duplicates
    (potential existing : list clip) (min_dur max_dur : T) : list clip :=
  match potential with
  | [] => []
  | clip :: rest =>
    let duration := sub (end_time clip) (start_time clip) in
    if negb (leb min_dur duration && leb duration max_dur)
    then _remove_duplicates rest existing min_dur max_dur
    else if _is_duplicate clip existing
    then _remove_duplicates rest existing min_dur max_dur
    else clip :: _remove_duplicates rest existing min_dur max_dur
  end.

(** The [for i in range(len(clips))] loop of [_text_tile], from the
    indices [idxs] on, with the loop variables [super_clips],
    [start_idx] and [super_idx]. *)
Fixpoint merge_loop
    (clips : list clip) (boundaries : list bool) (new_embeddings : list (vec T))
    (idxs : list nat) (super_clips : list clip) (start_idx super_idx : nat)
  : result (list clip) :=
  match idxs with
  | [] => Ok super_clips
  | i :: rest =>
    match nth_error boundaries i with
    | None => Raise IndexError
    | Some b =>
      if Bool.eqb b BOUNDARY then
        let end_idx := i in
        match nth_error clips start_idx, nth_error clips end_idx,
              nth_error new_embeddings super_idx with
        | Some first, Some final, Some emb =>
          let combined :=
            {| start_char := start_char first;
               end_char := end_char final;
               start_time := start_time first;
               end_time := end_time final;
               norm := norm2 emb |} in
          merge_loop clips boundaries new_embeddings rest
                     (super_clips ++ [combined])%list end_idx (S super_idx)
        | _, _, _ => Raise IndexError
        end
      else
        merge_loop clips boundaries new_embeddings rest
                   super_clips start_idx super_idx
    end
  end.

(** [_text_tile], with the boundary detector it calls as an argument. *)
Definition _text_tile_with
    (detect : list (vec T) -> Z -> result (list bool * list (vec T)))
    (clips : list clip) (clip_embeddings : list (vec T)) (k : Z)
  : result (list clip * list (vec T)) :=
  if negb (length clip_embeddings =? length clips)%nat
  then Raise ClipFinderError
  else
    let k := Z.min k (Z.max 3 (Z.of_nat (length clip_embeddings))) in
    '(boundaries, new_embeddings) <- detect clip_embeddings k ;;
    super_clips <- merge_loop clips boundaries new_embeddings
                     (Py.range (length clips)) [] 0 0 ;;
    Ok (super_clips, new_embeddings).

(** The detector of a [ClipFinder]: [TextTiler.text_tile] with the stored
    settings. *)
Definition tiler (self : config) (embeddings : list (vec T)) (k : Z)
  : result (list bool * list (vec T)) :=
  TextTiler.text_tile embeddings k
    (_window_compare_pool_method self)
    (_embedding_aggregation_pool_method self)
    (_smoothing_width self)
    (_cutoff_policy self).

Definition _text_tile (self : config) :=
  _text_tile_with (tiler self).

(** The [while len(clip_embeddings) > 8] loop, for at most [fuel] rounds. *)
Fixpoint rounds
    (fuel : nat) (self : config)
    (clips : list clip) (clip_embeddings : list (vec T)) (k : Z)
    (min_clip_duration max_clip_duration : T) (final_clips : list clip)
  : result (list clip) :=
  if (8 <? length clip_embeddings)%nat then
    match fuel with
    | O => OutOfFuel
    | S fuel' =>
      '(super_clips, super_embeddings) <- _text_tile self clips clip_embeddings k ;;
      let new_clips := _remove_duplicates super_clips final_clips
                         min_clip_duration max_clip_duration in
      let final_clips := (final_clips ++ new_clips)%list in
      rounds fuel' self super_clips super_embeddings k
             min_clip_duration max_clip_duration final_clips
    end
  else Ok final_clips.

(** [_text_tile_multiple_rounds]: as many rounds as there are embeddings
    are allowed, which is more than the loop ever takes. *)
Definition _text_tile_multiple_rounds
    (self : config)
    (clips : list clip) (clip_embeddings : list (vec T)) (k : Z)
    (min_clip_duration max_clip_duration : T) (final_clips : list clip)
  : result (list clip) :=
  rounds (length clip_embeddings) self clips clip_embeddings k
         min_clip_duration max_clip_duration final_clips.

(** The literal of [find_clips]: window sizes and the minimum duration
    they are run with. *)
Definition tiers (self : config) : list (list Z * T) :=
  [ ([5; 7], _min_clip_duration self);
    ([11; 17], of_Z 180);
    ([37; 53; 73; 97], of_Z 600) ].

(** [for k in k_vals] *)
Fixpoint for_k_vals
    (self : config) (tr : transcription) (k_vals : list Z) (min_sec : T)
    (clips : list clip) : result (list clip) :=
  match k_vals with
  | [] => Ok clips
  | k :: rest =>
    clips <- _text_tile_multiple_rounds self
               (sentence_info tr) (sentence_embeddings tr) k
               min_sec (_max_clip_duration self) clips ;;
    for_k_vals self tr rest min_sec clips
  end.

(** [for k_vals, min_sec in [...]] *)
Fixpoint for_tiers
    (self : config) (tr : transcription) (ts : list (list Z * T))
    (clips : list clip) : result (list clip) :=
  match ts with
  | [] => Ok clips
  | (k_vals, min_sec) :: rest =>
    clips <- for_k_vals self tr k_vals min_sec clips ;;
    for_tiers self tr rest clips
  end.

(** The whole-transcript clip [find_clips] starts from when the
    transcript is short enough. *)
Definition seed (tr : transcription) : clip :=
  {| start_char := 0;
     end_char := num_chars tr;
     start_time := of_Z 0;
     end_time := transcription_end_time tr;
     norm := one |}.

Definition to_segment (c : clip) : MediaSegment.t T :=
  MediaSegment.Build (start_time c) (end_time c) (start_char c) (end_char c).

(** The list [find_clips] starts from. *)
Definition initial_clips (self : config) (tr : transcription) : list clip :=
  if leb (transcription_end_time tr) (_max_clip_duration self)
  then [seed tr] else [].

Definition find_clips (self : config) (tr : transcription)
  : result (list (MediaSegment.t T)) :=
  let clips := initial_clips self tr in
  clips <- for_tiers self tr (tiers self) clips ;;
  Ok (map to_segment clips).

(** *** The same run, round by round

    The functions below follow the loops above step for step and return,
    instead of the accumulated list, the [new_clips] of every round in
    the order of the rounds. *)

Fixpoint rounds_accepted
    (fuel : nat) (self : config)
    (clips : list clip) (clip_embeddings : list (vec T)) (k : Z)
    (min_clip_duration max_clip_duration : T) (final_clips : list clip)
  : result (list (list clip)) :=
  if (8 <? length clip_embeddings)%nat then
    match fuel with
    | O => OutOfFuel
    | S fuel' =>
      '(super_clips, super_embeddings) <- _text_tile self clips clip_embeddings k ;;
      let new_clips := _remove_duplicates super_clips final_clips
                         min_clip_duration max_clip_duration in
      later <- rounds_accepted fuel' self super_clips super_embeddings k
                 min_clip_duration max_clip_duration (final_clips ++ new_clips)%list ;;
      Ok (new_clips :: later)
    end
  else Ok [].

Fixpoint for_k_vals_accepted
    (self : config) (tr : transcription) (k_vals : list Z) (min_sec : T)
    (clips : list clip) : result (list (list clip)) :=
  match k_vals with
  | [] => Ok []
  | k :: rest =>
    now <- rounds_accepted (length (sentence_embeddings tr)) self
             (sentence_info tr) (sentence_embeddings tr) k
             min_sec (_max_clip_duration self) clips ;;
    later <- for_k_vals_accepted self tr rest min_sec (clips ++ concat now)%list ;;
    Ok (now ++ later)%list
  end.

Fixpoint for_tiers_accepted
    (self : config) (tr : transcription) (ts : list (list Z * T))
    (clips : list clip) : result (list (list clip)) :=
  match ts with
  | [] => Ok []
  | (k_vals, min_sec) :: rest =>
    now <- for_k_vals_accepted self tr k_vals min_sec clips ;;
    later <- for_tiers_accepted self tr rest (clips ++ concat now)%list ;;
    Ok (now ++ later)%list
  end.

Definition accepted_per_round (self : config) (tr : transcription)
  : result (list (list clip)) :=
  for_tiers_accepted self tr (tiers self) (initial_clips self tr).

(** "Every clip of each round is at least 15 away from every clip that
    was in the list when its round began." *)
Definition apart (c ref : clip) : Prop := ltb (time_delta c ref) (of_Z 15) = false.

Fixpoint rounds_apart (existing : list clip) (rounds : list (list clip)) : Prop :=
  match rounds with
  | [] => True
  | new_clips :: later =>
    Forall (fun c => Forall (apart c) existing) new_clips
    /\ rounds_apart (existing ++ new_clips)%list later
  end.

(** The duration test of [_remove_duplicates]. *)
Definition duration_within (min_dur max_dur : T) (c : clip) : Prop :=
  leb min_dur (sub (end_time c) (start_time c)) = true
  /\ leb (sub (end_time c) (start_time c)) max_dur = true.

(** What the rounds of one window size accepted: each round within the
    duration bounds and apart from what was there before it. *)
Fixpoint rounds_sound (min_dur max_dur : T)
         (existing : list clip) (rs : list (list clip)) : Prop :=
  match rs with
  | [] => True
  | new_clips :: later =>
    Forall (fun c => duration_within min_dur max_dur c /\ Forall (apart c) existing)
           new_clips
    /\ rounds_sound min_dur max_dur (existing ++ new_clips) later
  end.

(** The stored settings pass the [TextTiler] check (for some, hence for
    every, window size [k >= 2]). *)
Definition valid_settings (self : config) : Prop :=
  TextTiler.check_valid_config 2
    (_window_compare_pool_method self) (_embedding_aggregation_pool_method self)
    (_smoothing_width self) (_cutoff_policy self) = None.

End ClipFinder.
Arguments clip T : clear implicits.
Arguments config T : clear implicits.
Arguments transcription T : clear implicits.
End ClipFinder.

(* ================================================================== *)
(** ** Exact rationals as numbers

    Everything is exact but the square root, which is rounded down to a
    multiple of [2^-40]; results are kept in lowest terms. *)

Module QNum.

Definition qsqrt (q : Q) : Q :=
  Qred (Z.sqrt (Qnum q * 2 ^ 80 / Z.pos (Qden q)) # 2 ^ 40).

Definition qltb (x y : Q) : bool := negb (Qle_bool y x).

Lemma qltb_irrefl (x : Q) : qltb x x = false.
Proof.
  unfold qltb. apply negb_false_iff, Qle_bool_iff, Qle_refl.
Qed.

#[export] Instance Q_Scalar : Scalar Q := {|
  of_Z := inject_Z;
  add := fun x y => Qred (x + y);
  sub := fun x y => Qred (x - y);
  mul := fun x y => Qred (x * y);
  div := fun x y => Qred (x / y);
  sqrt := qsqrt;
  absv := Qabs;
  ltb := qltb;
  leb := Qle_bool;
  eqb := Qeq_bool;
  ltb_irrefl := qltb_irrefl
|}.

End QNum.

(* ================================================================== *)
(** ** IEEE 754 binary64 as numbers

    Python's [float]; every operation is the hardware one. *)

Module FloatNum.

(** [float(z)]: the float nearest to the integer [z]. *)
Definition float_of_Z (z : Z) : float :=
  SF2Prim (binary_normalize prec emax z 0 false).

Lemma SFltb_irrefl (x : spec_float) : SFltb x x = false.
Proof.
  unfold SFltb. destruct x as [s|s| |s m e]; cbn; try reflexivity.
  - now destruct s.
  - destruct s; rewrite Z.compare_refl, ?Pos.compare_cont_refl, ?Pos.compare_refl;
      reflexivity.
Qed.

Lemma float_ltb_irrefl (x : float) : PrimFloat.ltb x x = false.
Proof. rewrite ltb_spec. apply SFltb_irrefl. Qed.

#[export] Instance float_Scalar : Scalar float := {|
  of_Z := float_of_Z;
  add := PrimFloat.add;
  sub := PrimFloat.sub;
  mul := PrimFloat.mul;
  div := PrimFloat.div;
  sqrt := PrimFloat.sqrt;
  absv := PrimFloat.abs;
  ltb := PrimFloat.ltb;
  leb := PrimFloat.leb;
  eqb := PrimFloat.eqb;
  ltb_irrefl := float_ltb_irrefl
|}.

End FloatNum.

(* ================================================================== *)
(** ** The specification's reading of boundary selection *)

Module Spec.
Section Spec.
Context {T : Type} `{Scalar T}.
Local Open Scope Z_scope.

(** Follows the specification's words, not the code: "Position [i] is a
    boundary iff [depth[i] > cutoff] and [depth[i]] is strictly greater
    than both of its immediate neighbors (array ends compare against
    themselves, i.e. an edge position can still qualify)".  For an edge
    position to be able to qualify, the neighbour it does not have must
    not count against it. *)
Definition is_boundary (depths : list T) (cutoff : T) (i : nat) : bool :=
  let d := Py.item zero depths in
  let M := Z.of_nat (length depths) in
  let i := Z.of_nat i in
  gtb (d i) cutoff
  && ((i =? 0) || gtb (d i) (d (i - 1)))
  && ((i =? M - 1) || gtb (d i) (d (i + 1))).

End Spec.
End Spec.

(* ================================================================== *)
(** ** A small transcript to run the code on *)

Module Examples.
Section Examples.
Context {T : Type} `{Scalar T}.
Import ClipFinder.
Local Open Scope string_scope.
Local Open Scope Z_scope.

(** Sentence [i] of a transcript whose sentences last [len] seconds and
    take ten characters each. *)
Definition sentence (len : Z) (i : nat) : clip T :=
  {| start_char := 10 * Z.of_nat i;
     end_char := 10 * Z.of_nat i + 9;
     start_time := of_Z (len * Z.of_nat i);
     end_time := of_Z (len * (Z.of_nat i + 1));
     norm := of_Z 0 |}.

Definition sentences (len : Z) (n : nat) : list (clip T) :=
  map (sentence len) (seq 0 n).

(** Five sentences on one topic, then five on another. *)
Definition two_topics : list (vec T) :=
  map (fun x => [of_Z x; of_Z 1]) [5; 5; 5; 5; 5; -5; -5; -5; -5; -5].

Definition talk (len : Z) : transcription T :=
  {| sentence_info := sentences len 10;
     sentence_embeddings := two_topics;
     transcription_end_time := of_Z (10 * len);
     num_chars := 100 |}.

(** The defaults of [ClipFinder.__init__]. *)
Definition default_finder : config T :=
  {| _min_clip_duration := of_Z 15;
     _max_clip_duration := of_Z 900;
     _cutoff_policy := "high";
     _embedding_aggregation_pool_method := "max";
     _smoothing_width := 3;
     _window_compare_pool_method := "mean" |}.

(** A finder for very short clips: between 0 and 8 seconds. *)
Definition short_clip_finder : config T :=
  {| _min_clip_duration := of_Z 0;
     _max_clip_duration := of_Z 8;
     _cutoff_policy := "high";
     _embedding_aggregation_pool_method := "max";
     _smoothing_width := 3;
     _window_compare_pool_method := "mean" |}.

(** What is left of a round when the norms are put aside. *)
Definition spans (r : result (list (clip T) * list (vec T)))
  : result (list (MediaSegment.t T) * list (vec T)) :=
  '(clips, embeddings) <- r ;; Ok (map to_segment clips, embeddings).

(** A segment with whole numbers of seconds. *)
Definition segment (begin_sec finish_sec text_start_idx text_end_idx : Z)
  : MediaSegment.t T :=
  MediaSegment.Build (of_Z begin_sec) (of_Z finish_sec) text_start_idx text_end_idx.

End Examples.
Arguments sentence T {_} len i.
Arguments sentences T {_} len n.
Arguments two_topics T {_}.
Arguments talk T {_} len.
Arguments default_finder T {_}.
Arguments short_clip_finder T {_}.
Arguments segment T {_} _ _ _ _.
End Examples.

(* ================================================================== *)
(** ** Flags with no two set in a row *)

Definition no_two_adjacent (l : list bool) : Prop :=
  forall i, nth i l false = true -> nth (S i) l false = false.

(* ================================================================== *)
(** ** Clips that begin and end with given units *)

Section Alignment.
Context {T : Type}.
Import ClipFinder.

(** [c] begins where some unit of [units] begins, and ends where some unit
    ends, in characters and in time. *)
Definition aligned (units : list (clip T)) (c : clip T) : Prop :=
  (exists u, In u units /\
             start_char c = start_char u /\ start_time c = start_time u) /\
  (exists v, In v units /\
             end_char c = end_char v /\ end_time c = end_time v).

End Alignment.

(* ================================================================== *)
(** ** txtslice/matcher.py: the other methods of MediaSegment *)

Module MediaSegmentMethods.
Section MediaSegmentMethods.
Context {T : Type} `{Scalar T}.
Local Open Scope Z_scope.

(** What [__eq__] may be handed: a [MediaSegment], or an object of some
    other class. *)
Inductive object : Type :=
| Segment (s : MediaSegment.t T)
| NotASegment.

(** [clone] *)
Definition clone (self : MediaSegment.t T) : MediaSegment.t T :=
  MediaSegment.Build
    (MediaSegment.begin_sec self) (MediaSegment.finish_sec self)
    (MediaSegment.text_start_idx self) (MediaSegment.text_end_idx self).

(** [__eq__] *)
Definition __eq__ (self : MediaSegment.t T) (other : object) : bool :=
  match other with
  | NotASegment => false
  | Segment other =>
    eqb (MediaSegment.begin_sec self) (MediaSegment.begin_sec other)
    && eqb (MediaSegment.finish_sec self) (MediaSegment.finish_sec other)
    && (MediaSegment.text_start_idx self =? MediaSegment.text_start_idx other)
    && (MediaSegment.text_end_idx self =? MediaSegment.text_end_idx other)
  end.

(** [__ne__] *)
Definition __ne__ (self : MediaSegment.t T) (other : object) : bool :=
  negb (__eq__ self other).

End MediaSegmentMethods.
Arguments object T : clear implicits.
End MediaSegmentMethods.

(* ================================================================== *)
(** ** Python dicts and the values the configuration dicts hold *)

Module Dict.
Section Dict.
Context {T : Type}.

(** [None], a [bool], an [int], a [float] or a [str]. *)
Inductive value : Type :=
| PNone
| PBool (b : bool)
| PInt (n : Z)
| PFloat (x : T)
| PStr (s : string).

(** A dict, as the list of its items in insertion order (one per key). *)
Definition t : Type := list (string * value).

(** [key in data] *)
Definition contains (data : t) (key : string) : bool :=
  existsb (fun kv => String.eqb key (fst kv)) data.

(** [data[key]]; [None] stands for the [KeyError]. *)
Fixpoint get (data : t) (key : string) : option value :=
  match data with
  | [] => None
  | (k, v) :: rest => if String.eqb key k then Some v else get rest key
  end.

(** [data.setdefault(key, v)], for the dict it leaves. *)
Definition setdefault (data : t) (key : string) (v : value) : t :=
  if contains data key then data else (data ++ [(key, v)])%list.

End Dict.
Arguments value T : clear implicits.
Arguments t T : clear implicits.
End Dict.

(* ================================================================== *)
(** ** utils/utils.py *)

(** [find_missing_dict_keys] *)
Definition find_missing_dict_keys {T} (data : Dict.t T) (required_keys : list string)
  : list string :=
  filter (fun key => negb (Dict.contains data key)) required_keys.

(* ================================================================== *)
(** ** Exceptions of the configuration managers and of the transcript *)

Module Exn.
Inductive t : Type :=
| TypeError
| AttributeError
| IndexError
| ConfigError
| TranscriptionError.
End Exn.

(** A call that returns, raises, or (for the model of a [while] loop) is
    cut short. *)
Inductive outcome (A : Type) : Type :=
| Returns (a : A)
| Raises (e : Exn.t)
| Unfinished.
Arguments Returns {A} a.
Arguments Raises {A} e.
Arguments Unfinished {A}.

(* ================================================================== *)
(** ** txtslice/tiler_algorithm.py: TextTilerConfigManager on a dict

    As above, [None] means valid and a message is given without the value
    the code formats into it. *)

Module TextTilerConfigManager.
Section TextTilerConfigManager.
Context {T : Type} `{Scalar T}.
Local Open Scope string_scope.
Local Open Scope Z_scope.

(** A [bool] is an [int] to [isinstance]: [True] is 1 and [False] is 0. *)
Definition as_int (v : Dict.value T) : option Z :=
  match v with
  | Dict.PInt n => Some n
  | Dict.PBool b => Some (if b then 1 else 0)
  | _ => None
  end.

(** [isinstance(v, (int, float))], with the number; an [int] is compared
    as the float of the same value. *)
Definition as_number (v : Dict.value T) : option T :=
  match v with
  | Dict.PInt n => Some (of_Z n)
  | Dict.PBool b => Some (of_Z (if b then 1 else 0))
  | Dict.PFloat x => Some x
  | _ => None
  end.

(** [not isinstance(k, int) or k < 2] *)
Definition check_valid_k (k : Dict.value T) : option string :=
  match as_int k with
  | Some n => TextTiler.check_valid_k n
  | None => Some "Invalid k value. Must be >= 2."
  end.

(** [method not in ["mean", "max"]]: only a [str] can be in the list. *)
Definition check_valid_pool_method (method : Dict.value T) : option string :=
  match method with
  | Dict.PStr s => TextTiler.check_valid_pool_method s
  | _ => Some "Invalid pool_method. Must be 'mean' or 'max'."
  end.

Definition check_valid_smoothing_width (width : Dict.value T) : option string :=
  match as_int width with
  | Some n => TextTiler.check_valid_smoothing_width n
  | None => Some "Invalid smoothing_width. Must be >= 3."
  end.

Definition check_valid_cutoff_policy (policy : Dict.value T) : option string :=
  match policy with
  | Dict.PStr s => TextTiler.check_valid_cutoff_policy s
  | _ => Some "Invalid cutoff_policy. Must be 'average', 'low', or 'high'."
  end.

(** [check_valid_clip_times] *)
Definition check_valid_clip_times (min_dur max_dur : Dict.value T) : option string :=
  match as_number min_dur with
  | None => Some "Invalid min_clip_duration"
  | Some lo =>
    if ltb lo (of_Z 0) then Some "Invalid min_clip_duration"
    else
      match as_number max_dur with
      | None => Some "max_clip_duration must be > min_clip_duration"
      | Some hi =>
        if leb hi lo then Some "max_clip_duration must be > min_clip_duration"
        else None
      end
  end.

Definition required : list string :=
  ["cutoff_policy"; "embedding_aggregation_pool_method";
   "k"; "smoothing_width"; "window_compare_pool_method"].

(** [checker(config[key])]; the key is there when this is reached, and
    the message of the other case is never seen. *)
Definition checked (config : Dict.t T) (key : string)
    (checker : Dict.value T -> option string) : option string :=
  match Dict.get config key with
  | Some v => checker v
  | None => Some "KeyError"
  end.

(** [check_valid_config] *)
Definition check_valid_config (config : Dict.t T) : option string :=
  match find_missing_dict_keys config required with
  | _ :: _ => Some "TextTiler missing config settings"
  | [] =>
    TextTiler.or_else (checked config "cutoff_policy" check_valid_cutoff_policy)
   (TextTiler.or_else (checked config "embedding_aggregation_pool_method"
                               check_valid_pool_method)
   (TextTiler.or_else (checked config "k" check_valid_k)
   (TextTiler.or_else (checked config "smoothing_width" check_valid_smoothing_width)
                      (checked config "window_compare_pool_method"
                               check_valid_pool_method))))
  end.

(** [ConfigManager.is_valid_config] and [ConfigManager.assert_valid_config] *)
Definition is_valid_config (config : Dict.t T) : bool :=
  match check_valid_config config with None => true | Some _ => false end.

Definition assert_valid_config (config : Dict.t T) : outcome unit :=
  match check_valid_config config with
  | Some _ => Raises Exn.ConfigError
  | None => Returns tt
  end.

(** The dict [text_tile] builds from its arguments. *)
Definition config_of
    (k : Z) (window_compare_pool_method embedding_aggregation_pool_method : string)
    (smoothing_width : Z) (cutoff_policy : string) : Dict.t T :=
  [ ("k", Dict.PInt k);
    ("window_compare_pool_method", Dict.PStr window_compare_pool_method);
    ("embedding_aggregation_pool_method", Dict.PStr embedding_aggregation_pool_method);
    ("smoothing_width", Dict.PInt smoothing_width);
    ("cutoff_policy", Dict.PStr cutoff_policy) ].

End TextTilerConfigManager.
End TextTilerConfigManager.

(* ================================================================== *)
(** ** txtslice/segment_picker.py: ClipFinderConfigManager *)

Module ClipFinderConfigManager.
Section ClipFinderConfigManager.
Context {T : Type} `{Scalar T}.
Local Open Scope string_scope.
Local Open Scope Z_scope.

(** The [defaults] of [impute_default_config], in their order. *)
Definition defaults : list (string * Dict.value T) :=
  [ ("compute_device", Dict.PStr "cpu");
    ("cutoff_policy", Dict.PStr "high");
    ("embedding_aggregation_pool_method", Dict.PStr "max");
    ("min_clip_time", Dict.PInt 15);
    ("max_clip_time", Dict.PInt 900);
    ("smoothing_width", Dict.PInt 3);
    ("window_compare_pool_method", Dict.PStr "mean") ].

(** [impute_default_config] *)
Definition impute_default_config (config : Dict.t T) : Dict.t T :=
  fold_left (fun cfg kv => Dict.setdefault cfg (fst kv) (snd kv)) defaults config.

Definition required : list string :=
  ["cutoff_policy"; "embedding_aggregation_pool_method";
   "max_clip_duration"; "min_clip_duration";
   "smoothing_width"; "window_compare_pool_method"].

(** [check_valid_clip_times]: the two calls of [check_type] only build a
    message that is dropped, and the comparisons are made whatever the
    types: [min_dur < 0] raises [TypeError] unless [min_dur] is a number,
    and so does [max_dur <= min_dur] for a number [min_dur]. *)
Definition check_valid_clip_times (min_dur max_dur : Dict.value T)
  : outcome (option string) :=
  match TextTilerConfigManager.as_number min_dur with
  | None => Raises Exn.TypeError
  | Some lo =>
    if ltb lo (of_Z 0) then Returns (Some "min_clip_duration must be >= 0")
    else
      match TextTilerConfigManager.as_number max_dur with
      | None => Raises Exn.TypeError
      | Some hi =>
        if leb hi lo
        then Returns (Some "max_clip_duration must be greater than min_clip_duration")
        else Returns None
      end
  end.

(** The methods a [ClipFinderConfigManager] has: its own, those of
    [TextTilerConfigManager] and those of [ConfigManager]. *)
Definition methods : list string :=
  [ "impute_default_config"; "check_valid_config"; "check_valid_clip_times";
    "check_valid_k"; "check_valid_pool_method"; "check_valid_smoothing_width";
    "check_valid_cutoff_policy";
    "is_valid_config"; "assert_valid_config" ].

(** [self.<name>]: an [AttributeError] when there is no such method. *)
Definition getattr (name : string) : outcome string :=
  if existsb (String.eqb name) methods then Returns name
  else Raises Exn.AttributeError.

(** The [validators] dict display of [check_valid_config]: its values are
    evaluated from the first to the last. *)
Definition validators : outcome (list (string * string)) :=
  match getattr "check_valid_cutoff_policy" with
  | Raises e => Raises e | Unfinished => Unfinished
  | Returns f1 =>
  match getattr "check_valid_embedding_aggregation_pool_method" with
  | Raises e => Raises e | Unfinished => Unfinished
  | Returns f2 =>
  match getattr "check_valid_smoothing_width" with
  | Raises e => Raises e | Unfinished => Unfinished
  | Returns f3 =>
  match getattr "check_valid_window_compare_pool_method" with
  | Raises e => Raises e | Unfinished => Unfinished
  | Returns f4 =>
    Returns [ ("cutoff_policy", f1); ("embedding_aggregation_pool_method", f2);
              ("smoothing_width", f3); ("window_compare_pool_method", f4) ]
  end end end end.

(** The method of that name, applied. *)
Definition call (name : string) (v : Dict.value T) : option string :=
  if String.eqb name "check_valid_cutoff_policy"
  then TextTilerConfigManager.check_valid_cutoff_policy v
  else if String.eqb name "check_valid_pool_method"
  then TextTilerConfigManager.check_valid_pool_method v
  else if String.eqb name "check_valid_smoothing_width"
  then TextTilerConfigManager.check_valid_smoothing_width v
  else TextTilerConfigManager.check_valid_k v.

Fixpoint run_validators (config : Dict.t T) (vs : list (string * string))
  : option string :=
  match vs with
  | [] => None
  | (key, func) :: rest =>
    match TextTilerConfigManager.checked config key (call func) with
    | Some msg => Some msg
    | None => run_validators config rest
    end
  end.

(** [check_valid_config] *)
Definition check_valid_config (cfg : Dict.t T) : outcome (option string) :=
  match find_missing_dict_keys cfg required with
  | _ :: _ => Returns (Some "Missing config values")
  | [] =>
    match Dict.get cfg "min_clip_duration", Dict.get cfg "max_clip_duration" with
    | Some min_dur, Some max_dur =>
      match check_valid_clip_times min_dur max_dur with
      | Raises e => Raises e
      | Unfinished => Unfinished
      | Returns (Some err) => Returns (Some err)
      | Returns None =>
        match validators with
        | Raises e => Raises e
        | Unfinished => Unfinished
        | Returns vs => Returns (run_validators cfg vs)
        end
      end
    | _, _ => Returns (Some "KeyError")
    end
  end.

(** [ConfigManager.assert_valid_config], which [ClipFinder.__init__]
    calls first. *)
Definition assert_valid_config (cfg : Dict.t T) : outcome unit :=
  match check_valid_config cfg with
  | Raises e => Raises e
  | Unfinished => Unfinished
  | Returns (Some _) => Raises Exn.ConfigError
  | Returns None => Returns tt
  end.

End ClipFinderConfigManager.
End ClipFinderConfigManager.

(* ================================================================== *)
(** ** transcribe/transcription.py: time stamps and lookups by time *)

Module Transcription.
Section Transcription.
Context {T : Type} `{Scalar T}.
Local Open Scope string_scope.
Local Open Scope Z_scope.

(** What the lookups read of an entry of [_chars], [_words] or
    [_sentences]: its two time stamps, each a [float] or [None]. *)
Record timed : Type := Timed {
  start_time : option T;
  end_time : option T
}.

(** The loop of the [end_time] property, over [reversed(self._chars)]. *)
Fixpoint first_time_stamp (chars : list timed) : option T :=
  match chars with
  | [] => None
  | ch :: rest =>
    match end_time ch with
    | Some t => Some t
    | None =>
      match start_time ch with
      | Some t => Some t
      | None => first_time_stamp rest
      end
    end
  end.

(** [Transcription.end_time]; [None] when the loop ends without a
    [return]. *)
Definition transcription_end_time (chars : list timed) : option T :=
  first_time_stamp (rev chars).

(** [x <= y] and [x > y] where a time stamp may be [None]. *)
Definition opt_leb (x y : option T) : outcome bool :=
  match x, y with
  | Some a, Some b => Returns (leb a b)
  | _, _ => Raises Exn.TypeError
  end.

Definition opt_gtb (x y : option T) : outcome bool :=
  match x, y with
  | Some a, Some b => Returns (ltb b a)
  | _, _ => Raises Exn.TypeError
  end.

Definition then_ {A B} (m : outcome A) (f : A -> outcome B) : outcome B :=
  match m with
  | Returns a => f a
  | Raises e => Raises e
  | Unfinished => Unfinished
  end.

(** The [while left <= right] loop of [_binary_search], for at most
    [fuel] iterations. *)
Fixpoint search
    (fuel : nat) (data : list timed) (target : option T) (mode : string)
    (left right : Z)
  : outcome Z :=
  if left <=? right then
    match fuel with
    | O => Unfinished
    | S fuel' =>
      let mid := (left + right) / 2 in
      match nth_error data (Z.to_nat mid) with
      | None => Raises Exn.IndexError
      | Some item =>
        let s := start_time item in
        let e := end_time item in
        (* s <= target <= e  is  s <= target and target <= e *)
        then_ (opt_leb s target) (fun s_le =>
        then_ (if s_le then opt_leb target e else Returns false) (fun inside =>
        if inside then Returns mid
        else
          then_ (opt_gtb target e) (fun above =>
          if above
          then search fuel' data target mode (mid + 1) right
          else search fuel' data target mode left (mid - 1))))
      end
    end
  else Returns (if String.eqb mode "start" then left - 1 else right + 1).

(** [_binary_search]; the range shrinks in every iteration, so as many
    iterations as there are entries are enough.  The target is a [float],
    or the [None] that [_slice_info] passes on. *)
Definition _binary_search (data : list timed) (target : option T) (mode : string)
  : outcome Z :=
  search (length data) data target mode 0 (Z.of_nat (length data) - 1).

(** [_validate_time_range]; [start] and [end] are [float]s or [None]. *)
Definition _validate_time_range
    (chars : list timed) (start finish : option T) : outcome unit :=
  match start, finish with
  | None, None => Returns tt
  | Some s, Some e =>
    (* start < 0 or start >= end or end > self.end_time *)
    if ltb s (of_Z 0) then Raises Exn.TranscriptionError
    else if leb e s then Raises Exn.TranscriptionError
    else
      then_ (opt_gtb (Some e) (transcription_end_time chars)) (fun late =>
      if late then Raises Exn.TranscriptionError else Returns tt)
  | _, _ => Raises Exn.TranscriptionError
  end.

(** [_slice_info], with the list [index_fn] searches. *)
Definition _slice_info {A} (items : list A) (times : list timed)
    (start finish : option T) : outcome (list A) :=
  match start, finish with
  | None, None => Returns items
  | _, _ =>
    then_ (_binary_search times start "start") (fun start_idx =>
    then_ (_binary_search times finish "end") (fun end_idx =>
    Returns (Py.slice items start_idx (end_idx + 1))))
  end.

(** [get_char_info], [get_word_info] and [get_sentence_info]: [items] is
    the list they slice, [chars] the characters [end_time] is read from. *)
Definition get_info (chars items : list timed) (start finish : option T)
  : outcome (list timed) :=
  then_ (_validate_time_range chars start finish) (fun _ =>
  _slice_info items items start finish).

End Transcription.
Arguments timed T : clear implicits.
End Transcription.

(* ================================================================== *)
(** ** Entries with both time stamps, in seconds as exact rationals *)

Module Entries.
Import QNum.
Local Open Scope Q_scope.

(** The entry of a transcript that lasts from [fst p] to [snd p]. *)
Definition entry (p : Q * Q) : Transcription.timed Q :=
  Transcription.Timed (Some (fst p)) (Some (snd p)).

Definition start_of (intervals : list (Q * Q)) (i : Z) : Q :=
  nth (Z.to_nat i) (map fst intervals) 0.

Definition end_of (intervals : list (Q * Q)) (i : Z) : Q :=
  nth (Z.to_nat i) (map snd intervals) 0.

(** What a look-up of [target] should answer with [r]: the index of an
    entry that contains [target]; or, when the entries before some index
    [L] all end before [target] and those from [L] on all start after it,
    [L - 1] in the mode ["start"] and [L] in any other mode. *)
Definition answers (intervals : list (Q * Q)) (target : Q) (mode : string) (r : Z)
  : Prop :=
  let len := Z.of_nat (length intervals) in
  ((0 <= r < len)%Z /\
   start_of intervals r <= target /\ target <= end_of intervals r) \/
  exists L, (0 <= L <= len)%Z /\
            (forall i, (0 <= i < L)%Z -> end_of intervals i < target) /\
            (forall i, (L <= i < len)%Z -> target < start_of intervals i) /\
            r = if String.eqb mode "start" then (L - 1)%Z else L.

End Entries.

(* ================================================================== *)
(** * Properties *)

(** ** Slices *)

Section SliceFacts.
Context {A : Type}.
Implicit Types l : list A.

Lemma slice_length_nonneg l (a b : Z) :
  0 <= a <= b -> b <= Z.of_nat (length l) ->
  length (Py.slice l a b) = Z.to_nat (b - a).
Proof.
  intros Hab Hb. unfold Py.slice, Py.adjust.
  destruct (Z.ltb_spec a 0); [lia|].
  destruct (Z.ltb_spec b 0); [lia|].
  rewrite length_firstn, length_skipn.
  destruct (Z.geb_spec a (Z.of_nat (length l)));
    destruct (Z.geb_spec b (Z.of_nat (length l))); lia.
Qed.

(** [y[m : -m]] drops [m] items at each end. *)
Lemma slice_trim_length l (m : Z) :
  0 < m -> 2 * m <= Z.of_nat (length l) ->
  length (Py.slice l m (- m)) = (length l - 2 * Z.to_nat m)%nat.
Proof.
  intros Hm Hl. unfold Py.slice, Py.adjust.
  destruct (Z.ltb_spec m 0); [lia|].
  destruct (Z.ltb_spec (- m) 0); [|lia].
  destruct (Z.ltb_spec (- m + Z.of_nat (length l)) 0); [lia|].
  rewrite length_firstn, length_skipn.
  destruct (Z.geb_spec m (Z.of_nat (length l))); lia.
Qed.

(** [x[L:1:-1]]: [L-1] items when [x] has more than [L] items, one less
    when it has exactly [L]. *)
Lemma slice_rev_head_length l (L : Z) :
  3 <= L <= Z.of_nat (length l) ->
  length (Py.slice_rev l L 1) =
    if L =? Z.of_nat (length l) then Z.to_nat (L - 2) else Z.to_nat (L - 1).
Proof.
  intros HL. unfold Py.slice_rev, Py.adjust.
  destruct (Z.ltb_spec L 0); [lia|].
  rewrite length_rev, length_firstn, length_skipn.
  change (1 <? 0) with false. cbv iota.
  destruct (Z.geb_spec 1 (Z.of_nat (length l))); [lia|].
  destruct (Z.geb_spec L (Z.of_nat (length l)));
    destruct (Z.eqb_spec L (Z.of_nat (length l))); lia.
Qed.

(** [x[-1:-L:-1]]: always [L-1] items. *)
Lemma slice_rev_tail_length l (L : Z) :
  3 <= L <= Z.of_nat (length l) ->
  length (Py.slice_rev l (-1) (- L)) = Z.to_nat (L - 1).
Proof.
  intros HL. unfold Py.slice_rev, Py.adjust.
  change (-1 <? 0) with true. cbv iota.
  destruct (Z.ltb_spec (- L) 0); [|lia].
  destruct (Z.ltb_spec (-1 + Z.of_nat (length l)) 0); [lia|].
  destruct (Z.ltb_spec (- L + Z.of_nat (length l)) 0); [lia|].
  rewrite length_rev, length_firstn, length_skipn. lia.
Qed.

End SliceFacts.

(** ** The result monad *)

Lemma bind_Ok_inv {A B} (m : result A) (f : A -> result B) (b : B) :
  bind m f = Ok b -> exists a, m = Ok a /\ f a = Ok b.
Proof.
  destruct m as [a| |]; simpl; intros E; try discriminate. now exists a.
Qed.

(** ** Smoothing *)

Section SmoothFacts.
Context {T : Type} `{Scalar T}.

Lemma np_convolve_same_length (a v y : list T) :
  np_convolve_same a v = Ok y ->
  length y = Nat.max (length a) (length v).
Proof.
  assert (Hc : forall p q : list T, length (convolve_centre p q) = length p)
    by (intros; unfold convolve_centre, Py.range; now rewrite length_map, length_seq).
  unfold np_convolve_same.
  destruct a as [|a0 a']; [discriminate|].
  destruct v as [|v0 v']; [discriminate|].
  destruct (Nat.ltb_spec (length (a0 :: a')) (length (v0 :: v')));
    intros E; injection E as E; rewrite <- E, Hc; lia.
Qed.

Lemma np_convolve_same_ok (a v : list T) :
  a <> [] -> v <> [] -> exists y, np_convolve_same a v = Ok y.
Proof.
  intros Ha Hv. unfold np_convolve_same.
  destruct a; [congruence|]. destruct v; [congruence|].
  destruct (Nat.ltb _ _); eexists; reflexivity.
Qed.

(** The three regimes of [smooth]. *)
Lemma smooth_too_short (x : list T) (L : Z) :
  Z.of_nat (length x) < L -> TextTiler.smooth x L = Raise ValueError.
Proof.
  intros HL. unfold TextTiler.smooth.
  destruct (Z.ltb_spec (Z.of_nat (length x)) L); [reflexivity|lia].
Qed.

Lemma smooth_narrow (x : list T) (L : Z) :
  L <= Z.of_nat (length x) -> L < 3 -> TextTiler.smooth x L = Ok x.
Proof.
  intros Hx HL. unfold TextTiler.smooth.
  destruct (Z.ltb_spec (Z.of_nat (length x)) L); [lia|].
  destruct (Z.ltb_spec L 3); [reflexivity|lia].
Qed.

Lemma smooth_wide (x : list T) (L : Z) :
  3 <= L <= Z.of_nat (length x) ->
  exists y, TextTiler.smooth x L = Ok y /\
            length y = if L =? Z.of_nat (length x)
                       then (length x - 1)%nat else length x.
Proof.
  intros HL. unfold TextTiler.smooth.
  destruct (Z.ltb_spec (Z.of_nat (length x)) L); [lia|].
  destruct (Z.ltb_spec L 3); [lia|].
  set (w := map _ (repeat one (Z.to_nat L))).
  set (s := (_ ++ x ++ _)%list).
  assert (Hw : length w = Z.to_nat L)
    by (unfold w; now rewrite length_map, repeat_length).
  assert (Hs : length s =
               ((if (L =? Z.of_nat (length x))%Z
                 then Z.to_nat (L - 2)%Z else Z.to_nat (L - 1)%Z)
                + length x + Z.to_nat (L - 1)%Z)%nat).
  { unfold s. rewrite !length_app, !length_map.
    rewrite slice_rev_head_length, slice_rev_tail_length by lia. lia. }
  destruct (np_convolve_same_ok w s) as [y Hy].
  { intros E. rewrite E in Hw. simpl in Hw. lia. }
  { intros E. rewrite E in Hs. simpl in Hs.
    destruct (L =? Z.of_nat (length x)); lia. }
  exists (Py.slice y (L - 1) (- L + 1)). rewrite Hy. simpl. split; [reflexivity|].
  apply np_convolve_same_length in Hy. rewrite Hw, Hs in Hy.
  replace (- L + 1) with (- (L - 1)) by lia.
  rewrite slice_trim_length; destruct (Z.eqb_spec L (Z.of_nat (length x))); lia.
Qed.

(** [smooth] never returns more items than it was given. *)
Lemma smooth_not_longer (x y : list T) (L : Z) :
  TextTiler.smooth x L = Ok y -> (length y <= length x)%nat.
Proof.
  intros E.
  destruct (Z.lt_ge_cases (Z.of_nat (length x)) L) as [Hs|Hs].
  - rewrite smooth_too_short in E by assumption. discriminate.
  - destruct (Z.lt_ge_cases L 3) as [Hn|Hn].
    + rewrite smooth_narrow in E by assumption. injection E as <-. lia.
    + destruct (smooth_wide x L) as (y' & E' & Hy'); [lia|].
      rewrite E in E'. injection E' as <-.
      destruct (L =? Z.of_nat (length x)); lia.
Qed.

End SmoothFacts.

(** ** Boundary flags and pooled groups *)

Lemma num_set_app (l1 l2 : list bool) :
  num_set (l1 ++ l2) = (num_set l1 + num_set l2)%nat.
Proof. apply count_occ_app. Qed.

Lemma num_set_le_length (l : list bool) : (num_set l <= length l)%nat.
Proof. apply count_occ_bound. Qed.

Lemma skipn_nth_error {A} (l : list A) (i : nat) (x : A) :
  nth_error l i = Some x -> skipn i l = x :: skipn (S i) l.
Proof.
  revert i. induction l as [|y l IH]; intros [|i] E; simpl in *; try discriminate.
  - now injection E as ->.
  - now apply IH.
Qed.

Section TilerFacts.
Context {T : Type} `{Scalar T}.
Local Open Scope string_scope.
Local Open Scope Z_scope.

Lemma set_item_app {A} (pre : list A) (x v : A) (r : list A) :
  TextTiler.set_item (pre ++ x :: r) (length pre) v = (pre ++ v :: r)%list.
Proof. induction pre as [|y pre IH]; simpl; [reflexivity|now rewrite IH]. Qed.

(** The loop of [_identify_boundaries] writes the outcome of its test at
    every index it visits and nothing else. *)
Lemma fold_set_flags (p : nat -> bool) (n : nat) :
  forall (a : nat) (pre suf : list bool),
    length pre = a ->
    fold_left (fun b i => if p i then TextTiler.set_item b i true else b)
              (seq a n) (pre ++ repeat false n ++ suf)%list
    = (pre ++ map p (seq a n) ++ suf)%list.
Proof.
  induction n as [|n IH]; intros a pre suf Ha; [reflexivity|].
  cbn [seq repeat fold_left map app].
  assert (E : (if p a then TextTiler.set_item (pre ++ false :: repeat false n ++ suf) a true
               else (pre ++ false :: repeat false n ++ suf)%list)
              = ((pre ++ [p a]) ++ repeat false n ++ suf)%list).
  { rewrite <- app_assoc. cbn [app]. destruct (p a) eqn:Ep.
    - rewrite <- Ha. apply set_item_app.
    - reflexivity. }
  rewrite E, IH by (rewrite length_app; simpl; lia).
  now rewrite <- app_assoc.
Qed.

Lemma identify_boundaries_eq (depths : list T) (policy : string) (cutoff : T) :
  TextTiler.cutoff_of depths policy = Some cutoff ->
  TextTiler._identify_boundaries depths policy
  = Ok (map (TextTiler.is_peak depths cutoff) (seq 0 (length depths)) ++ [true])%list.
Proof.
  intros Ec. unfold TextTiler._identify_boundaries. rewrite Ec. f_equal.
  unfold Py.range. rewrite Nat.add_1_r at 1.
  replace (repeat false (S (length depths)))
    with ([] ++ repeat false (length depths) ++ [false])%list
    by (cbn [app]; rewrite <- repeat_cons; reflexivity).
  rewrite fold_set_flags by reflexivity. cbn [app].
  replace (length depths + 1 - 1)%nat
    with (length (map (TextTiler.is_peak depths cutoff) (seq 0 (length depths))))
    by (rewrite length_map, length_seq; lia).
  apply set_item_app.
Qed.

Lemma identify_boundaries_invalid (depths : list T) (policy : string) :
  TextTiler.cutoff_of depths policy = None ->
  TextTiler._identify_boundaries depths policy = Raise TextTilerError.
Proof. intros Ec. unfold TextTiler._identify_boundaries. now rewrite Ec. Qed.

(** A position is compared with itself at either end of the depth
    scores, so the strict test fails there. *)
Lemma is_peak_first (depths : list T) (cutoff : T) :
  TextTiler.is_peak depths cutoff 0 = false.
Proof.
  unfold TextTiler.is_peak, gtb. cbn [Z.of_nat].
  change (Z.max 0 (0 - 1)) with 0.
  rewrite (ltb_irrefl (Py.item zero depths 0)).
  now rewrite andb_false_r.
Qed.

Lemma is_peak_last (depths : list T) (cutoff : T) (i : nat) :
  S i = length depths -> TextTiler.is_peak depths cutoff i = false.
Proof.
  intros Hi. unfold TextTiler.is_peak, gtb.
  replace (Z.min (Z.of_nat i + 1) (Z.of_nat (length depths) - 1))
    with (Z.of_nat i) by lia.
  rewrite (ltb_irrefl (Py.item zero depths (Z.of_nat i))).
  now rewrite andb_false_r.
Qed.

(** At least one of the [M >= 1] loop positions stays clear. *)
Lemma num_set_peaks (depths : list T) (cutoff : T) :
  depths <> [] ->
  (num_set (map (TextTiler.is_peak depths cutoff) (seq 0 (length depths)))
   < length depths)%nat.
Proof.
  intros Hd. destruct depths as [|d ds] eqn:Ed; [congruence|].
  rewrite <- Ed. replace (length depths) with (S (length ds)) by now rewrite Ed.
  cbn [seq map]. rewrite is_peak_first.
  change (num_set (false :: ?l)) with (num_set l).
  pose proof (num_set_le_length
                (map (TextTiler.is_peak depths cutoff) (seq 1 (length ds)))) as Hle.
  rewrite length_map, length_seq in Hle.
  unfold num_set in *. cbn [count_occ]. destruct (Bool.bool_dec false true); [discriminate|].
  lia.
Qed.

(** [_pool_embedding_groups]: one pooled row per set flag among the
    flags of the rows, when every row has a flag ... *)
Lemma pool_groups_from_ok (pool : list (vec T) -> vec T) (boundaries : list bool) :
  forall (rows : list (vec T)) (i : nat) (group pooled : list (vec T)),
    (i + length rows <= length boundaries)%nat ->
    exists r,
      TextTiler.pool_groups_from pool boundaries rows i group pooled = Ok r /\
      length r = (length pooled
                  + num_set (firstn (length rows) (skipn i boundaries)))%nat.
Proof.
  induction rows as [|e rows IH]; intros i group pooled Hi.
  - exists pooled. split; [reflexivity|]. simpl. unfold num_set. simpl. lia.
  - cbn [length] in Hi. cbn [TextTiler.pool_groups_from].
    destruct (nth_error boundaries i) as [b|] eqn:Eb.
    2:{ apply nth_error_None in Eb. lia. }
    rewrite (skipn_nth_error _ _ _ Eb). cbn [length firstn].
    destruct b; cbn [Bool.eqb TextTiler.BOUNDARY].
    + destruct (IH (S i) [] (pooled ++ [pool (group ++ [e])])%list) as (r & Er & Hr);
        [lia|].
      exists r. split; [exact Er|]. rewrite Hr, length_app.
      unfold num_set. cbn [count_occ length].
      destruct (Bool.bool_dec true true); [lia|congruence].
    + destruct (IH (S i) (group ++ [e])%list pooled) as (r & Er & Hr); [lia|].
      exists r. split; [exact Er|]. rewrite Hr.
      unfold num_set. cbn [count_occ].
      destruct (Bool.bool_dec false true); [discriminate|lia].
Qed.

(** ... and [IndexError] when the flags run out before the rows do. *)
Lemma pool_groups_from_short (pool : list (vec T) -> vec T) (boundaries : list bool) :
  forall (rows : list (vec T)) (i : nat) (group pooled : list (vec T)),
    (i <= length boundaries < i + length rows)%nat ->
    TextTiler.pool_groups_from pool boundaries rows i group pooled = Raise IndexError.
Proof.
  induction rows as [|e rows IH]; intros i group pooled Hi.
  - simpl in Hi. lia.
  - cbn [length] in Hi. cbn [TextTiler.pool_groups_from].
    destruct (nth_error boundaries i) as [b|] eqn:Eb; [|reflexivity].
    assert (i < length boundaries)%nat
      by (apply nth_error_Some; congruence).
    destruct (Bool.eqb b TextTiler.BOUNDARY); apply IH; lia.
Qed.

(** *** The stages of [text_tile] *)

Lemma get_pool_method_valid (name : string) :
  TextTiler.check_valid_pool_method name = None ->
  exists pool, TextTiler._get_pool_method name = Ok pool.
Proof.
  unfold TextTiler.check_valid_pool_method, TextTiler._get_pool_method.
  cbn [existsb]. destruct (String.eqb name "mean"); [eauto|].
  destruct (String.eqb name "max"); [eauto|]. discriminate.
Qed.

Lemma cutoff_of_valid (depths : list T) (policy : string) :
  TextTiler.check_valid_cutoff_policy policy = None ->
  exists cutoff, TextTiler.cutoff_of depths policy = Some cutoff.
Proof.
  unfold TextTiler.check_valid_cutoff_policy, TextTiler.cutoff_of.
  cbn [existsb]. destruct (String.eqb policy "average"); [eauto|].
  destruct (String.eqb policy "low") eqn:El;
    destruct (String.eqb policy "high"); eauto. discriminate.
Qed.

Lemma check_valid_config_None (k : Z) (wc agg : string) (w : Z) (policy : string) :
  TextTiler.check_valid_config k wc agg w policy = None ->
  TextTiler.check_valid_cutoff_policy policy = None /\
  TextTiler.check_valid_pool_method agg = None /\
  2 <= k /\ 3 <= w /\
  TextTiler.check_valid_pool_method wc = None.
Proof.
  unfold TextTiler.check_valid_config, TextTiler.or_else.
  destruct (TextTiler.check_valid_cutoff_policy policy); [discriminate|].
  destruct (TextTiler.check_valid_pool_method agg); [discriminate|].
  unfold TextTiler.check_valid_k, TextTiler.check_valid_smoothing_width.
  destruct (Z.ltb_spec k 2); [discriminate|].
  destruct (Z.ltb_spec w 3); [discriminate|].
  intros E. repeat split; try assumption.
Qed.

Lemma calc_gap_scores_inv (embeddings : list (vec T)) (k : Z) (m : string) (u : list T) :
  TextTiler._calc_gap_scores embeddings k m = Ok u ->
  (length u + 1 = length embeddings)%nat.
Proof.
  unfold TextTiler._calc_gap_scores. intros E.
  apply bind_Ok_inv in E as (pool & _ & E).
  destruct (Z.ltb_spec (Z.of_nat (length embeddings) - 1) 0); [discriminate|].
  injection E as <-. unfold Py.range. rewrite length_map, length_seq. lia.
Qed.

Lemma calc_gap_scores_ok (embeddings : list (vec T)) (k : Z) (m : string) :
  TextTiler.check_valid_pool_method m = None ->
  embeddings <> [] ->
  exists u, TextTiler._calc_gap_scores embeddings k m = Ok u.
Proof.
  intros Hm He. destruct (get_pool_method_valid m Hm) as [pool Ep].
  unfold TextTiler._calc_gap_scores. rewrite Ep. cbn [bind].
  destruct (Z.ltb_spec (Z.of_nat (length embeddings) - 1) 0); [|eauto].
  destruct embeddings; [congruence|]. cbn [length] in *. lia.
Qed.

Lemma calc_depth_scores_length (gap_scores : list T) :
  length (TextTiler._calc_depth_scores gap_scores) = length gap_scores.
Proof.
  unfold TextTiler._calc_depth_scores, Py.range. now rewrite length_map, length_seq.
Qed.

Lemma pool_embedding_groups_inv
    (embeddings : list (vec T)) (boundaries : list bool) (m : string)
    (pooled : list (vec T)) :
  TextTiler._pool_embedding_groups embeddings boundaries m = Ok pooled ->
  (length embeddings <= length boundaries)%nat /\
  length pooled = num_set (firstn (length embeddings) boundaries).
Proof.
  unfold TextTiler._pool_embedding_groups. intros E.
  apply bind_Ok_inv in E as (pool & _ & E).
  apply bind_Ok_inv in E as (r & Er & E).
  assert (pooled = r) by (destruct r; [discriminate|now injection E]). subst r.
  destruct (Nat.le_gt_cases (length embeddings) (length boundaries)) as [Hle|Hgt].
  - split; [exact Hle|].
    destruct (pool_groups_from_ok pool boundaries embeddings 0 [] []) as (r & Er' & Hr);
      [lia|].
    rewrite Er in Er'. injection Er' as <-. exact Hr.
  - rewrite pool_groups_from_short in Er by lia. discriminate.
Qed.

Lemma pool_embedding_groups_ok
    (embeddings : list (vec T)) (flags : list bool) (m : string) :
  TextTiler.check_valid_pool_method m = None ->
  length flags = length embeddings ->
  (0 < num_set flags)%nat ->
  exists pooled, TextTiler._pool_embedding_groups embeddings flags m = Ok pooled.
Proof.
  intros Hm Hl Hn. destruct (get_pool_method_valid m Hm) as [pool Ep].
  unfold TextTiler._pool_embedding_groups. rewrite Ep. cbn [bind].
  destruct (pool_groups_from_ok pool flags embeddings 0 [] []) as (r & Er & Hr); [lia|].
  rewrite Er. cbn [bind]. cbn [skipn length Nat.add] in Hr.
  rewrite <- Hl, firstn_all in Hr.
  destruct r; [simpl in Hr; lia|eauto].
Qed.

(** What a returning [text_tile] has computed: the flags are the peak
    tests over some depth scores followed by the forced final flag,
    there is one flag per embedding and one pooled row per set flag. *)
Lemma text_tile_shape
    (embeddings : list (vec T)) (k : Z) (wc agg : string) (w : Z) (policy : string)
    (flags : list bool) (pooled : list (vec T)) :
  TextTiler.text_tile embeddings k wc agg w policy = Ok (flags, pooled) ->
  exists depths cutoff,
    flags = (map (TextTiler.is_peak depths cutoff) (seq 0 (length depths)) ++ [true])%list /\
    length flags = length embeddings /\
    length pooled = num_set flags.
Proof.
  unfold TextTiler.text_tile. intros E.
  apply bind_Ok_inv in E as (_ & _ & E).
  apply bind_Ok_inv in E as (u & Eu & E).
  apply bind_Ok_inv in E as (sm & Esm & E).
  apply bind_Ok_inv in E as (b & Eb & E).
  apply bind_Ok_inv in E as (pl & Epl & E).
  injection E as <- <-.
  apply calc_gap_scores_inv in Eu.
  apply smooth_not_longer in Esm.
  set (depths := TextTiler._calc_depth_scores sm) in *.
  assert (Hd : length depths = length sm) by apply calc_depth_scores_length.
  destruct (TextTiler.cutoff_of depths policy) as [cutoff|] eqn:Ec.
  2:{ rewrite identify_boundaries_invalid in Eb by assumption. discriminate. }
  rewrite (identify_boundaries_eq _ _ _ Ec) in Eb. injection Eb as Eb.
  apply pool_embedding_groups_inv in Epl as [Hle Hpl].
  assert (Hb : length b = (length depths + 1)%nat)
    by (rewrite <- Eb, length_app, length_map, length_seq; reflexivity).
  assert (Hlen : length b = length embeddings) by lia.
  exists depths, cutoff. repeat split; [now symmetry|exact Hlen|].
  now rewrite <- Hlen, firstn_all in Hpl.
Qed.

(** When [text_tile] returns: a valid configuration, at least three
    embeddings, and a smoothing width other than [N - 1]. *)
Lemma text_tile_returns
    (embeddings : list (vec T)) (k : Z) (wc agg : string) (w : Z) (policy : string) :
  TextTiler.check_valid_config k wc agg w policy = None ->
  (3 <= length embeddings)%nat ->
  Z.of_nat (length embeddings) <> w + 1 ->
  exists flags pooled,
    TextTiler.text_tile embeddings k wc agg w policy = Ok (flags, pooled).
Proof.
  intros Hv HN Hw. unfold TextTiler.text_tile, TextTiler.assert_valid_config.
  rewrite Hv. cbn [bind].
  apply check_valid_config_None in Hv as (Hpol & Hagg & Hk & Hw3 & Hwc).
  set (N := Z.of_nat (length embeddings)) in *.
  set (k' := if k >=? N then _ else k).
  set (w' := if w >=? N then 2 else w).
  destruct (calc_gap_scores_ok embeddings k' wc Hwc) as [u Eu].
  { intros ->. simpl in HN. lia. }
  rewrite Eu. cbn [bind]. apply calc_gap_scores_inv in Eu.
  assert (Esm : exists sm, TextTiler._smooth_scores u w' = Ok sm /\ length sm = length u).
  { unfold TextTiler._smooth_scores, w'. destruct (Z.geb_spec w N).
    - exists u. split; [apply smooth_narrow; lia|reflexivity].
    - destruct (smooth_wide u w) as (sm & Es & Hs); [lia|].
      exists sm. split; [exact Es|].
      destruct (Z.eqb_spec w (Z.of_nat (length u))); [lia|exact Hs]. }
  destruct Esm as (sm & Esm & Hsm). rewrite Esm. cbn [bind].
  set (depths := TextTiler._calc_depth_scores sm).
  destruct (cutoff_of_valid depths policy Hpol) as [cutoff Ec].
  rewrite (identify_boundaries_eq _ _ _ Ec). cbn [bind].
  destruct (pool_embedding_groups_ok embeddings
              (map (TextTiler.is_peak depths cutoff) (seq 0 (length depths)) ++ [true])
              agg Hagg) as [pooled Ep].
  { rewrite length_app, length_map, length_seq. unfold depths.
    rewrite calc_depth_scores_length. simpl. lia. }
  { rewrite num_set_app. unfold num_set at 2. cbn [count_occ].
    destruct (Bool.bool_dec true true); [lia|congruence]. }
  rewrite Ep. cbn [bind]. eauto.
Qed.

End TilerFacts.

(** ** One agglomeration round *)

Section RoundFacts.
Context {T : Type} `{Scalar T}.
Import ClipFinder.
Local Open Scope Z_scope.

(** The merge loop appends one clip per set flag it meets. *)
Lemma merge_loop_ok
    (clips : list (clip T)) (boundaries : list bool) (new_embeddings : list (vec T)) :
  forall (n a : nat) (super_clips : list (clip T)) (start_idx super_idx : nat),
    (a + n <= length clips)%nat ->
    (a + n <= length boundaries)%nat ->
    (start_idx <= a)%nat ->
    (super_idx + num_set (firstn n (skipn a boundaries)) <= length new_embeddings)%nat ->
    exists r,
      merge_loop clips boundaries new_embeddings (seq a n)
                 super_clips start_idx super_idx = Ok r /\
      length r = (length super_clips + num_set (firstn n (skipn a boundaries)))%nat.
Proof.
  induction n as [|n IH]; intros a super_clips start_idx super_idx Hc Hb Hs Hn.
  - exists super_clips. split; [reflexivity|]. cbn. lia.
  - cbn [seq merge_loop].
    destruct (nth_error boundaries a) as [b|] eqn:Eb.
    2:{ apply nth_error_None in Eb. lia. }
    rewrite (skipn_nth_error _ _ _ Eb) in Hn |- *. cbn [firstn] in Hn |- *.
    destruct b; cbn [Bool.eqb BOUNDARY].
    + assert (Hone : forall l, num_set (true :: l) = S (num_set l)).
      { intros l. unfold num_set. cbn [count_occ].
        destruct (Bool.bool_dec true true); [reflexivity|congruence]. }
      rewrite Hone in Hn |- *.
      destruct (nth_error clips start_idx) as [first|] eqn:E1.
      2:{ apply nth_error_None in E1. lia. }
      destruct (nth_error clips a) as [final|] eqn:E2.
      2:{ apply nth_error_None in E2. lia. }
      destruct (nth_error new_embeddings super_idx) as [emb|] eqn:E3.
      2:{ apply nth_error_None in E3. lia. }
      edestruct (IH (S a)) as (r & Er & Hr); [| | | |exists r; split; [exact Er|]];
        try lia.
      rewrite Hr, length_app. cbn [length]. lia.
    + assert (Hzero : forall l, num_set (false :: l) = num_set l).
      { intros l. unfold num_set. cbn [count_occ].
        destruct (Bool.bool_dec false true); [discriminate|reflexivity]. }
      rewrite Hzero in Hn |- *.
      apply IH; lia.
Qed.

(** What a returning round has produced. *)
Lemma text_tile_round_inv
    (self : config T) (clips : list (clip T)) (clip_embeddings : list (vec T)) (k : Z)
    (super_clips : list (clip T)) (super_embeddings : list (vec T)) :
  _text_tile self clips clip_embeddings k = Ok (super_clips, super_embeddings) ->
  length clips = length clip_embeddings /\
  length super_clips = length super_embeddings /\
  (1 <= length super_embeddings)%nat /\
  ((2 <= length clip_embeddings)%nat ->
   (length super_embeddings < length clip_embeddings)%nat).
Proof.
  unfold _text_tile, _text_tile_with. intros E.
  destruct (Nat.eqb_spec (length clip_embeddings) (length clips)) as [Hl|Hl];
    cbn [negb] in E; [|discriminate].
  apply bind_Ok_inv in E as ([flags pooled] & Et & E).
  apply bind_Ok_inv in E as (sc & Em & E). injection E as <- <-.
  apply text_tile_shape in Et as (depths & cutoff & Ef & Hfl & Hpl).
  destruct (merge_loop_ok clips flags pooled (length clips) 0 [] 0 0)
    as (r & Er & Hr); try lia.
  { cbn [skipn]. rewrite <- Hl, <- Hfl, firstn_all. lia. }
  unfold Py.range in Em. rewrite Em in Er. injection Er as <-.
  cbn [skipn length Nat.add] in Hr. rewrite <- Hl, <- Hfl, firstn_all in Hr.
  assert (Hd : (length depths + 1 = length clip_embeddings)%nat).
  { rewrite <- Hfl, Ef, length_app, length_map, length_seq. reflexivity. }
  assert (Hns : num_set flags
                = S (num_set (map (TextTiler.is_peak depths cutoff)
                                  (seq 0 (length depths))))).
  { rewrite Ef, num_set_app. unfold num_set at 2. cbn [count_occ].
    destruct (Bool.bool_dec true true); [lia|congruence]. }
  repeat split; try lia.
  intros H2. rewrite Hpl, Hns.
  pose proof (num_set_peaks depths cutoff) as Hp.
  destruct depths; [cbn [length] in Hd; lia|].
  specialize (Hp ltac:(discriminate)). lia.
Qed.

Lemma valid_settings_any_k (self : config T) (k : Z) :
  valid_settings self -> 2 <= k ->
  TextTiler.check_valid_config k
    (_window_compare_pool_method self) (_embedding_aggregation_pool_method self)
    (_smoothing_width self) (_cutoff_policy self) = None.
Proof.
  unfold valid_settings. intros Hv Hk.
  apply check_valid_config_None in Hv as (Hp & Ha & _ & Hw & Hc).
  unfold TextTiler.check_valid_config, TextTiler.or_else.
  rewrite Hp, Ha, Hc.
  unfold TextTiler.check_valid_k, TextTiler.check_valid_smoothing_width.
  destruct (Z.ltb_spec k 2); [lia|].
  destruct (Z.ltb_spec (_smoothing_width self) 3); [lia|reflexivity].
Qed.

(** When a round returns. *)
Lemma text_tile_round_ok
    (self : config T) (clips : list (clip T)) (clip_embeddings : list (vec T)) (k : Z) :
  valid_settings self -> 2 <= k ->
  length clips = length clip_embeddings ->
  (3 <= length clip_embeddings)%nat ->
  Z.of_nat (length clip_embeddings) <> _smoothing_width self + 1 ->
  exists super_clips super_embeddings,
    _text_tile self clips clip_embeddings k = Ok (super_clips, super_embeddings).
Proof.
  intros Hv Hk Hl HN Hw. unfold _text_tile, _text_tile_with.
  rewrite Hl, Nat.eqb_refl. cbn [negb].
  set (k' := Z.min k _).
  destruct (text_tile_returns clip_embeddings k'
              (_window_compare_pool_method self)
              (_embedding_aggregation_pool_method self)
              (_smoothing_width self) (_cutoff_policy self))
    as (flags & pooled & Et); [apply valid_settings_any_k; [assumption|lia]|lia|lia|].
  unfold tiler. rewrite Et. cbn [bind].
  apply text_tile_shape in Et as (depths & cutoff & Ef & Hfl & Hpl).
  destruct (merge_loop_ok clips flags pooled (length clips) 0 [] 0 0)
    as (r & Er & Hr); try lia.
  { cbn [skipn]. rewrite Hl, <- Hfl, firstn_all. lia. }
  unfold Py.range. rewrite <- Hl, Er. cbn [bind]. eauto.
Qed.

(** A round is straight-line code around loops over finite ranges: it
    returns or raises. *)
Lemma halts_bind {A B} (m : result A) (f : A -> result B) :
  halts m = true -> (forall a, halts (f a) = true) -> halts (bind m f) = true.
Proof. destruct m; cbn; auto. Qed.

Lemma merge_loop_halts
    (clips : list (clip T)) (boundaries : list bool) (new_embeddings : list (vec T)) :
  forall idxs super_clips start_idx super_idx,
    halts (merge_loop clips boundaries new_embeddings idxs
                      super_clips start_idx super_idx) = true.
Proof.
  induction idxs as [|i idxs IH]; intros; cbn [merge_loop]; [reflexivity|].
  destruct (nth_error boundaries i) as [b|]; [|reflexivity].
  destruct (Bool.eqb b BOUNDARY); [|apply IH].
  destruct (nth_error clips start_idx); [|reflexivity].
  destruct (nth_error clips i); [|reflexivity].
  destruct (nth_error new_embeddings super_idx); [apply IH|reflexivity].
Qed.

Lemma pool_groups_from_halts (pool : list (vec T) -> vec T) (boundaries : list bool) :
  forall rows i group pooled,
    halts (TextTiler.pool_groups_from pool boundaries rows i group pooled) = true.
Proof.
  induction rows as [|e rows IH]; intros; cbn [TextTiler.pool_groups_from];
    [reflexivity|].
  destruct (nth_error boundaries i) as [b|]; [|reflexivity].
  destruct (Bool.eqb b TextTiler.BOUNDARY); apply IH.
Qed.

Lemma text_tile_halts
    (embeddings : list (vec T)) (k : Z) (wc agg : string) (w : Z) (policy : string) :
  halts (TextTiler.text_tile embeddings k wc agg w policy) = true.
Proof.
  unfold TextTiler.text_tile.
  set (w' := if w >=? _ then 2 else w).
  apply halts_bind.
  { unfold TextTiler.assert_valid_config.
    now destruct (TextTiler.check_valid_config _ _ _ _ _). }
  intros _. apply halts_bind.
  { unfold TextTiler._calc_gap_scores. apply halts_bind.
    - unfold TextTiler._get_pool_method.
      now repeat match goal with |- context [if ?c then _ else _] => destruct c end.
    - intros pool. now destruct (_ <? 0). }
  intros u. apply halts_bind.
  { unfold TextTiler._smooth_scores, TextTiler.smooth.
    destruct (_ <? w'); [reflexivity|]. destruct (w' <? 3); [reflexivity|].
    apply halts_bind; [|reflexivity].
    unfold np_convolve_same.
    destruct (map _ (repeat one _)); [reflexivity|].
    destruct (_ ++ _ ++ _)%list; [reflexivity|].
    now destruct (_ <? _)%nat. }
  intros sm. apply halts_bind.
  { unfold TextTiler._identify_boundaries.
    now destruct (TextTiler.cutoff_of _ _). }
  intros b. apply halts_bind; [|reflexivity].
  unfold TextTiler._pool_embedding_groups. apply halts_bind.
  { unfold TextTiler._get_pool_method.
    now repeat match goal with |- context [if ?c then _ else _] => destruct c end. }
  intros pool. apply halts_bind; [apply pool_groups_from_halts|].
  now intros [|? ?].
Qed.

Lemma text_tile_round_halts
    (self : config T) (clips : list (clip T)) (clip_embeddings : list (vec T)) (k : Z) :
  halts (_text_tile self clips clip_embeddings k) = true.
Proof.
  unfold _text_tile, _text_tile_with. destruct (negb _); [reflexivity|].
  apply halts_bind; [apply text_tile_halts|].
  intros [flags pooled]. apply halts_bind; [apply merge_loop_halts|reflexivity].
Qed.

(** *** The loop of rounds *)

(** As many rounds as there are embeddings are never used up. *)
Lemma rounds_halts (self : config T) (k : Z) (min_dur max_dur : T) :
  forall (fuel : nat) (clips : list (clip T)) (clip_embeddings : list (vec T))
         (final_clips : list (clip T)),
    (length clip_embeddings <= fuel)%nat ->
    halts (rounds fuel self clips clip_embeddings k min_dur max_dur final_clips) = true.
Proof.
  induction fuel as [|fuel IH]; intros clips embs final Hf.
  - cbn [rounds]. destruct (Nat.ltb_spec 8 (length embs)); [lia|reflexivity].
  - cbn [rounds]. destruct (Nat.ltb_spec 8 (length embs)); [|reflexivity].
    destruct (_text_tile self clips embs k) as [[sc se]| |] eqn:Et; cbn [bind];
      try reflexivity.
    + apply IH. apply text_tile_round_inv in Et as (_ & _ & _ & Hlt). lia.
    + pose proof (text_tile_round_halts self clips embs k) as Hh.
      rewrite Et in Hh. discriminate.
Qed.

(** When every round returns: valid settings, one embedding per unit, and
    a smoothing width that no sequence of more than 8 items is one
    longer than. *)
Lemma rounds_ok (self : config T) (k : Z) (min_dur max_dur : T) :
  valid_settings self -> 2 <= k -> _smoothing_width self <= 7 ->
  forall (fuel : nat) (clips : list (clip T)) (clip_embeddings : list (vec T))
         (final_clips : list (clip T)),
    length clips = length clip_embeddings ->
    (length clip_embeddings <= fuel)%nat ->
    exists r,
      rounds fuel self clips clip_embeddings k min_dur max_dur final_clips = Ok r.
Proof.
  intros Hv Hk Hw.
  induction fuel as [|fuel IH]; intros clips embs final Hl Hf.
  - cbn [rounds]. destruct (Nat.ltb_spec 8 (length embs)); [lia|eauto].
  - cbn [rounds]. destruct (Nat.ltb_spec 8 (length embs)); [|eauto].
    destruct (text_tile_round_ok self clips embs k) as (sc & se & Et);
      try assumption; try lia.
    rewrite Et. cbn [bind].
    apply text_tile_round_inv in Et as (_ & Hsl & _ & Hlt).
    apply IH; [assumption|lia].
Qed.

(** *** The acceptance filter *)

Lemma is_duplicate_false (seg : clip T) (existing : list (clip T)) :
  _is_duplicate seg existing = false -> Forall (apart seg) existing.
Proof.
  induction existing as [|ref rest IH]; cbn [_is_duplicate]; intros E;
    [constructor|].
  destruct (ltb (time_delta seg ref) (of_Z 15)) eqn:Ed; [discriminate|].
  constructor; [exact Ed|auto].
Qed.

Lemma remove_duplicates_accepts
    (potential existing : list (clip T)) (min_dur max_dur : T) :
  Forall (fun c => duration_within min_dur max_dur c /\ Forall (apart c) existing)
         (_remove_duplicates potential existing min_dur max_dur).
Proof.
  induction potential as [|c rest IH]; cbn [_remove_duplicates]; [constructor|].
  destruct (leb min_dur (sub (end_time c) (start_time c))) eqn:E1;
    cbn [andb negb]; [|exact IH].
  destruct (leb (sub (end_time c) (start_time c)) max_dur) eqn:E2;
    cbn [negb]; [|exact IH].
  destruct (_is_duplicate c existing) eqn:E3; [exact IH|].
  constructor; [|exact IH].
  split; [split; assumption|now apply is_duplicate_false].
Qed.

(** *** The run, round by round *)

Lemma rounds_sound_app (min_dur max_dur : T) (rs1 rs2 : list (list (clip T))) :
  forall existing,
    rounds_sound min_dur max_dur existing rs1 ->
    rounds_sound min_dur max_dur (existing ++ concat rs1) rs2 ->
    rounds_sound min_dur max_dur existing (rs1 ++ rs2).
Proof.
  induction rs1 as [|r rs1 IH]; intros existing H1 H2; cbn [app concat] in *.
  - now rewrite app_nil_r in H2.
  - destruct H1 as [Hr H1]. split; [exact Hr|].
    apply IH; [exact H1|now rewrite <- app_assoc].
Qed.

Lemma rounds_sound_apart (min_dur max_dur : T) (rs : list (list (clip T))) :
  forall existing, rounds_sound min_dur max_dur existing rs -> rounds_apart existing rs.
Proof.
  induction rs as [|r rs IH]; intros existing Hs; cbn in *; [exact I|].
  destruct Hs as [Hr Hs]. split; [|auto].
  eapply Forall_impl; [|exact Hr]. now intros c [_ Hc].
Qed.

Lemma rounds_sound_within (min_dur max_dur : T) (rs : list (list (clip T))) :
  forall existing,
    rounds_sound min_dur max_dur existing rs ->
    Forall (duration_within min_dur max_dur) (concat rs).
Proof.
  induction rs as [|r rs IH]; intros existing Hs; cbn in *; [constructor|].
  destruct Hs as [Hr Hs]. apply Forall_app. split; [|eauto].
  eapply Forall_impl; [|exact Hr]. now intros c [Hc _].
Qed.

Lemma rounds_apart_app (rs1 rs2 : list (list (clip T))) :
  forall existing,
    rounds_apart existing rs1 ->
    rounds_apart (existing ++ concat rs1) rs2 ->
    rounds_apart existing (rs1 ++ rs2).
Proof.
  induction rs1 as [|r rs1 IH]; intros existing H1 H2; cbn [app concat] in *.
  - now rewrite app_nil_r in H2.
  - destruct H1 as [Hr H1]. split; [exact Hr|].
    apply IH; [exact H1|now rewrite <- app_assoc].
Qed.

(** The loop of rounds returns its starting list followed by what its
    rounds accepted, in order. *)
Lemma rounds_accepted_eq (self : config T) (k : Z) (min_dur max_dur : T) :
  forall (fuel : nat) (clips : list (clip T)) (clip_embeddings : list (vec T))
         (final_clips : list (clip T)),
    rounds fuel self clips clip_embeddings k min_dur max_dur final_clips
    = (rs <- rounds_accepted fuel self clips clip_embeddings k
               min_dur max_dur final_clips ;;
       Ok (final_clips ++ concat rs)).
Proof.
  induction fuel as [|fuel IH]; intros clips embs final;
    cbn [rounds rounds_accepted];
    (destruct (8 <? length embs)%nat; [|cbn; now rewrite app_nil_r]).
  - reflexivity.
  - destruct (_text_tile self clips embs k) as [[sc se]| |]; cbn [bind];
      try reflexivity.
    rewrite IH.
    destruct (rounds_accepted fuel self sc se k min_dur max_dur _); cbn [bind concat];
      try reflexivity.
    now rewrite app_assoc.
Qed.

Lemma rounds_accepted_sound (self : config T) (k : Z) (min_dur max_dur : T) :
  forall (fuel : nat) (clips : list (clip T)) (clip_embeddings : list (vec T))
         (final_clips : list (clip T)) (rs : list (list (clip T))),
    rounds_accepted fuel self clips clip_embeddings k min_dur max_dur final_clips
    = Ok rs ->
    rounds_sound min_dur max_dur final_clips rs.
Proof.
  induction fuel as [|fuel IH]; intros clips embs final rs;
    cbn [rounds_accepted];
    (destruct (8 <? length embs)%nat; [|intros [= <-]; exact I]).
  - discriminate.
  - intros E. apply bind_Ok_inv in E as ([sc se] & _ & E).
    apply bind_Ok_inv in E as (later & El & E). injection E as <-.
    split; [apply remove_duplicates_accepts|eauto].
Qed.

Lemma for_k_vals_accepted_eq (self : config T) (tr : transcription T) (min_sec : T) :
  forall (k_vals : list Z) (clips : list (clip T)),
    for_k_vals self tr k_vals min_sec clips
    = (rs <- for_k_vals_accepted self tr k_vals min_sec clips ;;
       Ok (clips ++ concat rs)).
Proof.
  induction k_vals as [|k rest IH]; intros clips;
    cbn [for_k_vals for_k_vals_accepted].
  - cbn. now rewrite app_nil_r.
  - unfold _text_tile_multiple_rounds. rewrite rounds_accepted_eq.
    destruct (rounds_accepted _ self _ _ k min_sec _ clips) as [now| |];
      cbn [bind]; try reflexivity.
    rewrite IH.
    destruct (for_k_vals_accepted self tr rest min_sec _) as [later| |];
      cbn [bind]; try reflexivity.
    now rewrite concat_app, app_assoc.
Qed.

Lemma for_k_vals_accepted_sound (self : config T) (tr : transcription T) (min_sec : T) :
  forall (k_vals : list Z) (clips : list (clip T)) (rs : list (list (clip T))),
    for_k_vals_accepted self tr k_vals min_sec clips = Ok rs ->
    rounds_sound min_sec (_max_clip_duration self) clips rs.
Proof.
  induction k_vals as [|k rest IH]; intros clips rs; cbn [for_k_vals_accepted].
  - intros [= <-]. exact I.
  - intros E. apply bind_Ok_inv in E as (now & En & E).
    apply bind_Ok_inv in E as (later & El & E). injection E as <-.
    apply rounds_sound_app; [eapply rounds_accepted_sound; exact En|eauto].
Qed.

Lemma for_tiers_accepted_eq (self : config T) (tr : transcription T) :
  forall (ts : list (list Z * T)) (clips : list (clip T)),
    for_tiers self tr ts clips
    = (rs <- for_tiers_accepted self tr ts clips ;; Ok (clips ++ concat rs)).
Proof.
  induction ts as [|[k_vals min_sec] rest IH]; intros clips;
    cbn [for_tiers for_tiers_accepted].
  - cbn. now rewrite app_nil_r.
  - rewrite for_k_vals_accepted_eq.
    destruct (for_k_vals_accepted self tr k_vals min_sec clips) as [now| |];
      cbn [bind]; try reflexivity.
    rewrite IH.
    destruct (for_tiers_accepted self tr rest _) as [later| |];
      cbn [bind]; try reflexivity.
    now rewrite concat_app, app_assoc.
Qed.

Lemma for_tiers_accepted_apart (self : config T) (tr : transcription T) :
  forall (ts : list (list Z * T)) (clips : list (clip T)) (rs : list (list (clip T))),
    for_tiers_accepted self tr ts clips = Ok rs -> rounds_apart clips rs.
Proof.
  induction ts as [|[k_vals min_sec] rest IH]; intros clips rs;
    cbn [for_tiers_accepted].
  - intros [= <-]. exact I.
  - intros E. apply bind_Ok_inv in E as (now & En & E).
    apply bind_Ok_inv in E as (later & El & E). injection E as <-.
    apply rounds_apart_app; [|eauto].
    eapply rounds_sound_apart, for_k_vals_accepted_sound; exact En.
Qed.

End RoundFacts.

(* ================================================================== *)
(** * The claims of the specification *)

Section DetectorClaims.
Context {T : Type} `{Scalar T}.
Local Open Scope string_scope.
Local Open Scope Z_scope.

(** C2 (amended).  For every embedding sequence of length [N >= 3] whose
    length is not the smoothing width plus one, and every valid
    configuration, [text_tile] returns a flag sequence of length exactly
    [N] whose last flag is set, and a pooled sequence with one row per
    set flag, hence at least one row. *)
Theorem text_tile_flags_and_groups
    (embeddings : list (vec T)) (k : Z) (wc agg : string) (w : Z) (policy : string) :
  TextTiler.check_valid_config k wc agg w policy = None ->
  (3 <= length embeddings)%nat ->
  Z.of_nat (length embeddings) <> w + 1 ->
  exists flags pooled,
    TextTiler.text_tile embeddings k wc agg w policy = Ok (flags, pooled) /\
    length flags = length embeddings /\
    last flags false = true /\
    length pooled = num_set flags /\
    (1 <= length pooled)%nat.
Proof.
  intros Hv HN Hw.
  destruct (text_tile_returns embeddings k wc agg w policy Hv HN Hw)
    as (flags & pooled & Et).
  exists flags, pooled. split; [exact Et|].
  apply text_tile_shape in Et as (depths & cutoff & Ef & Hfl & Hpl).
  repeat split; try assumption.
  - rewrite Ef. apply last_last.
  - rewrite Hpl, Ef, num_set_app. unfold num_set at 2. cbn [count_occ].
    destruct (Bool.bool_dec true true); [lia|congruence].
Qed.

(** C3 (amended).  Boundary selection takes [mean(D)] as the cutoff for
    ['average'], [mean(D) + std(D)] for ['high'] and [mean(D) - std(D)]
    for ['low'] ([std] the population standard deviation); it returns
    [M + 1] flags, sets flag [i < M] iff [D[i] > cutoff],
    [D[i] > D[max(0, i-1)]] and [D[i] > D[min(i+1, M-1)]], and forces the
    last flag.  Since an end of the array is compared with itself under
    a strict comparison, the flags of the positions [0] and [M - 1] are
    never set. *)
Theorem identify_boundaries_flags (depths : list T) :
  let M := length depths in
  let D := Py.item zero depths in
  TextTiler.cutoff_of depths "average" = Some (mean depths) /\
  TextTiler.cutoff_of depths "high"
    = Some (add (mean depths) (std_population depths)) /\
  TextTiler.cutoff_of depths "low"
    = Some (sub (mean depths) (std_population depths)) /\
  forall policy cutoff,
    TextTiler.cutoff_of depths policy = Some cutoff ->
    exists flags,
      TextTiler._identify_boundaries depths policy = Ok flags /\
      length flags = S M /\
      nth M flags false = true /\
      (forall i, (i < M)%nat ->
         nth i flags false
         = gtb (D (Z.of_nat i)) cutoff
           && gtb (D (Z.of_nat i)) (D (Z.max 0 (Z.of_nat i - 1)))
           && gtb (D (Z.of_nat i)) (D (Z.min (Z.of_nat i + 1) (Z.of_nat M - 1)))) /\
      (forall i, (i < M)%nat -> i = O \/ S i = M -> nth i flags false = false).
Proof.
  intros M D. repeat split; try reflexivity.
  intros policy cutoff Ec.
  exists (map (TextTiler.is_peak depths cutoff) (seq 0 M) ++ [true])%list.
  assert (Hm : length (map (TextTiler.is_peak depths cutoff) (seq 0 M)) = M)
    by now rewrite length_map, length_seq.
  assert (Hnth : forall i, (i < M)%nat ->
            nth i (map (TextTiler.is_peak depths cutoff) (seq 0 M) ++ [true]) false
            = TextTiler.is_peak depths cutoff i).
  { intros i Hi. rewrite app_nth1 by lia.
    rewrite (nth_indep _ false (TextTiler.is_peak depths cutoff O)) by lia.
    rewrite map_nth, seq_nth by lia. reflexivity. }
  split; [now apply identify_boundaries_eq|].
  split; [rewrite length_app, Hm; simpl; lia|].
  split; [rewrite app_nth2, Hm, Nat.sub_diag by lia; reflexivity|].
  split.
  - intros i Hi. rewrite Hnth by assumption. reflexivity.
  - intros i Hi [->|Hl]; rewrite Hnth by assumption.
    + apply is_peak_first.
    + now apply is_peak_last.
Qed.

(** C9 (amended).  [smooth] refuses a sequence shorter than the window
    with a [ValueError]; for a window width below 3 it returns a sequence
    of at least that many items unchanged; and for a width of 3 or more
    it returns, for every sequence with more items than the window is
    wide, a sequence of the same length. *)
Theorem smooth_length (x : list T) (window_len : Z) :
  let n := Z.of_nat (length x) in
  (n < window_len -> TextTiler.smooth x window_len = Raise ValueError) /\
  (window_len <= n -> window_len < 3 -> TextTiler.smooth x window_len = Ok x) /\
  (3 <= window_len < n ->
   exists y, TextTiler.smooth x window_len = Ok y /\ length y = length x) /\
  TextTiler._smooth_scores x window_len = TextTiler.smooth x window_len.
Proof.
  intros n. repeat split.
  - apply smooth_too_short.
  - apply smooth_narrow.
  - intros HL. destruct (smooth_wide x window_len) as (y & Ey & Hy); [lia|].
    exists y. split; [exact Ey|].
    destruct (Z.eqb_spec window_len (Z.of_nat (length x))); [lia|exact Hy].
Qed.

End DetectorClaims.

Section SegmentClaims.
Context {T : Type} `{Scalar T}.
Import ClipFinder.
Local Open Scope Z_scope.

(** C10.  [bool(segment)] is true iff none of the four fields is zero;
    so a segment that begins at time 0 or at character 0 is falsy, and
    the whole-transcript segment [find_clips] starts from is. *)
Theorem media_segment_bool (s : MediaSegment.t T) :
  (MediaSegment.__bool__ s = true <->
     eqb (MediaSegment.begin_sec s) zero = false /\
     eqb (MediaSegment.finish_sec s) zero = false /\
     MediaSegment.text_start_idx s <> 0 /\
     MediaSegment.text_end_idx s <> 0) /\
  (eqb (MediaSegment.begin_sec s) zero = true \/ MediaSegment.text_start_idx s = 0 ->
     MediaSegment.__bool__ s = false) /\
  (forall tr : transcription T,
     MediaSegment.begin_sec (to_segment (seed tr)) = of_Z 0 /\
     MediaSegment.text_start_idx (to_segment (seed tr)) = 0 /\
     MediaSegment.__bool__ (to_segment (seed tr)) = false).
Proof.
  unfold MediaSegment.__bool__, truthy, MediaSegment.int_truthy.
  split; [|split].
  - rewrite !andb_true_iff, !negb_true_iff, !Z.eqb_neq. tauto.
  - intros [E|E]; rewrite E; cbn [negb andb Z.eqb];
      now rewrite ?andb_false_r.
  - intros tr. cbn. repeat split. now rewrite andb_false_r.
Qed.

End SegmentClaims.

Section DriverClaims.
Context {T : Type} `{Scalar T}.
Import ClipFinder.
Local Open Scope Z_scope.

Lemma find_clips_accepted_eq (self : config T) (tr : transcription T) :
  find_clips self tr
  = (rs <- accepted_per_round self tr ;;
     Ok (map to_segment (initial_clips self tr ++ concat rs))).
Proof.
  unfold find_clips, accepted_per_round. rewrite for_tiers_accepted_eq.
  now destruct (for_tiers_accepted self tr (tiers self) (initial_clips self tr)).
Qed.

(** C4 (amended).  In the list returned by one run of [find_clips], every
    segment is at least 15 seconds away, in
    [|begin_sec - begin_sec'| + |finish_sec - finish_sec'|], from every
    segment that was already in the list when the round that accepted it
    began (the whole-transcript segment and the segments of earlier
    rounds); the segments one round accepts are not compared with each
    other. *)
Theorem accepted_apart_from_earlier_rounds
    (self : config T) (tr : transcription T) (segs : list (MediaSegment.t T)) :
  find_clips self tr = Ok segs ->
  exists rounds,
    accepted_per_round self tr = Ok rounds /\
    segs = map to_segment (initial_clips self tr ++ concat rounds) /\
    rounds_apart (initial_clips self tr) rounds.
Proof.
  rewrite find_clips_accepted_eq. intros E.
  apply bind_Ok_inv in E as (rs & Er & E). injection E as <-.
  exists rs. repeat split; [exact Er|].
  eapply for_tiers_accepted_apart. exact Er.
Qed.

(** C5.  Every segment [find_clips] returns, the whole-transcript segment
    apart, has a duration [finish_sec - begin_sec] between the minimum of
    the tier that produced it ([min_clip_duration], 180 or 600) and
    [max_clip_duration].  With a minimum of 15 and a maximum of 900, a
    candidate from 0 to 10 is rejected. *)
Theorem accepted_durations_within_tier_bounds
    (self : config T) (tr : transcription T) (segs : list (MediaSegment.t T)) :
  find_clips self tr = Ok segs ->
  let initial := initial_clips self tr in
  let max_dur := _max_clip_duration self in
  (exists short medium long,
     for_k_vals self tr [5; 7] (_min_clip_duration self) initial
       = Ok (initial ++ short) /\
     for_k_vals self tr [11; 17] (of_Z 180) (initial ++ short)
       = Ok (initial ++ short ++ medium) /\
     for_k_vals self tr [37; 53; 73; 97] (of_Z 600) (initial ++ short ++ medium)
       = Ok (initial ++ short ++ medium ++ long) /\
     segs = map to_segment (initial ++ short ++ medium ++ long) /\
     Forall (duration_within (_min_clip_duration self) max_dur) short /\
     Forall (duration_within (of_Z 180) max_dur) medium /\
     Forall (duration_within (of_Z 600) max_dur) long) /\
  (forall (sc ec : Z) (n : Q) (existing : list (clip Q)),
     @_remove_duplicates Q QNum.Q_Scalar
       [ {| start_char := sc; end_char := ec;
            start_time := 0%Q; end_time := 10%Q; norm := n |} ]
       existing 15%Q 900%Q = []).
Proof.
  intros E initial max_dur. split; [|reflexivity].
  unfold find_clips in E. fold initial in E.
  apply bind_Ok_inv in E as (clips & Ec & E). injection E as <-.
  unfold tiers in Ec. cbn [for_tiers] in Ec. fold max_dur in Ec.
  apply bind_Ok_inv in Ec as (c1 & E1 & Ec).
  apply bind_Ok_inv in Ec as (c2 & E2 & Ec).
  apply bind_Ok_inv in Ec as (c3 & E3 & Ec). injection Ec as <-.
  pose proof E1 as S1. rewrite for_k_vals_accepted_eq in S1.
  apply bind_Ok_inv in S1 as (r1 & R1 & S1). injection S1 as S1. subst c1.
  pose proof E2 as S2. rewrite for_k_vals_accepted_eq in S2.
  apply bind_Ok_inv in S2 as (r2 & R2 & S2). injection S2 as S2. subst c2.
  pose proof E3 as S3. rewrite for_k_vals_accepted_eq in S3.
  apply bind_Ok_inv in S3 as (r3 & R3 & S3). injection S3 as S3. subst c3.
  exists (concat r1), (concat r2), (concat r3).
  rewrite <- !app_assoc in *.
  repeat split; try assumption.
  - eapply rounds_sound_within, for_k_vals_accepted_sound; exact R1.
  - eapply rounds_sound_within, for_k_vals_accepted_sound; exact R2.
  - eapply rounds_sound_within, for_k_vals_accepted_sound; exact R3.
Qed.

(** C6.  If the transcript's end time does not exceed
    [max_clip_duration], the list [find_clips] returns starts with the
    whole-transcript segment: [begin_sec = 0], [finish_sec] the end time,
    [text_start_idx = 0]; what the tiers accept comes after it.  And
    [find_clips] does return a list when the settings are valid, the
    smoothing width is at most 7 and there is one embedding per
    sentence. *)
Theorem seed_segment_returned (self : config T) (tr : transcription T) :
  leb (transcription_end_time tr) (_max_clip_duration self) = true ->
  (forall segs,
     find_clips self tr = Ok segs ->
     exists rest,
       segs = MediaSegment.Build (of_Z 0) (transcription_end_time tr) 0 (num_chars tr)
              :: rest) /\
  (valid_settings self ->
   _smoothing_width self <= 7 ->
   length (sentence_info tr) = length (sentence_embeddings tr) ->
   exists segs, find_clips self tr = Ok segs).
Proof.
  intros Hle. split.
  - intros segs E. rewrite find_clips_accepted_eq in E.
    apply bind_Ok_inv in E as (rs & _ & E). injection E as <-.
    unfold initial_clips. rewrite Hle. cbn [app map]. eauto.
  - intros Hv Hw Hl. unfold find_clips.
    assert (Hk : forall k_vals min_sec clips,
               Forall (fun k => 2 <= k) k_vals ->
               exists r, for_k_vals self tr k_vals min_sec clips = Ok r).
    { induction k_vals as [|k rest IH]; intros min_sec clips Hks;
        cbn [for_k_vals]; [eauto|].
      inversion Hks as [|? ? Hk2 Hrest]; subst.
      destruct (rounds_ok self k min_sec (_max_clip_duration self) Hv Hk2 Hw
                  (length (sentence_embeddings tr)) (sentence_info tr)
                  (sentence_embeddings tr) clips Hl (Nat.le_refl _)) as [r Er].
      unfold _text_tile_multiple_rounds. rewrite Er. cbn [bind]. now apply IH. }
    unfold tiers. cbn [for_tiers].
    destruct (Hk [5; 7] (_min_clip_duration self) (initial_clips self tr)) as [c1 E1];
      [repeat constructor; lia|].
    rewrite E1. cbn [bind].
    destruct (Hk [11; 17] (of_Z 180) c1) as [c2 E2]; [repeat constructor; lia|].
    rewrite E2. cbn [bind].
    destruct (Hk [37; 53; 73; 97] (of_Z 600) c2) as [c3 E3]; [repeat constructor; lia|].
    rewrite E3. cbn [bind]. eauto.
Qed.

(** C7.  The loop of agglomeration rounds comes to an end on every input.
    For every round on more than 8 items that returns, the flags are as
    many as the items, the pooled rows and the merged clips are as many
    as the set flags, and that is strictly fewer than the items; and such
    a round does return when the settings are valid, there is one
    embedding per clip and the length is not the smoothing width plus
    one. *)
Theorem agglomeration_terminates
    (self : config T) (clips : list (clip T)) (clip_embeddings : list (vec T)) (k : Z)
    (min_dur max_dur : T) (final_clips : list (clip T)) :
  halts (_text_tile_multiple_rounds self clips clip_embeddings k
           min_dur max_dur final_clips) = true /\
  (forall flags pooled,
     (8 < length clip_embeddings)%nat ->
     tiler self clip_embeddings k = Ok (flags, pooled) ->
     length flags = length clip_embeddings /\
     length pooled = num_set flags /\
     (num_set flags < length clip_embeddings)%nat) /\
  (forall super_clips super_embeddings,
     (8 < length clip_embeddings)%nat ->
     _text_tile self clips clip_embeddings k = Ok (super_clips, super_embeddings) ->
     length super_clips = length super_embeddings /\
     (length super_embeddings < length clip_embeddings)%nat) /\
  (valid_settings self -> 2 <= k ->
   length clips = length clip_embeddings ->
   (8 < length clip_embeddings)%nat ->
   Z.of_nat (length clip_embeddings) <> _smoothing_width self + 1 ->
   exists super_clips super_embeddings,
     _text_tile self clips clip_embeddings k = Ok (super_clips, super_embeddings)).
Proof.
  split; [apply rounds_halts; lia|]. split; [|split].
  - intros flags pooled HN Et. unfold tiler in Et.
    apply text_tile_shape in Et as (depths & cutoff & Ef & Hfl & Hpl).
    repeat split; try assumption.
    assert (Hd : (length depths + 1 = length clip_embeddings)%nat).
    { rewrite <- Hfl, Ef, length_app, length_map, length_seq. reflexivity. }
    rewrite Ef, num_set_app. unfold num_set at 2. cbn [count_occ].
    destruct (Bool.bool_dec true true); [|congruence].
    pose proof (num_set_peaks depths cutoff) as Hp.
    destruct depths; [cbn [length] in Hd; lia|].
    specialize (Hp ltac:(discriminate)). lia.
  - intros sc se HN Et.
    apply text_tile_round_inv in Et as (_ & Hl & _ & Hlt). split; [exact Hl|lia].
  - intros Hv Hk Hl HN Hw. apply text_tile_round_ok; try assumption. lia.
Qed.

(** C8.  When the embeddings and the clips passed into a round differ in
    length, the round raises [ClipFinderError] whatever the boundary
    detector would do, that is, without consulting it; the loop of rounds
    and [find_clips] end with that error and return nothing. *)
Theorem shape_mismatch_raises
    (self : config T) (clips : list (clip T)) (clip_embeddings : list (vec T)) (k : Z) :
  length clip_embeddings <> length clips ->
  (forall detect, _text_tile_with detect clips clip_embeddings k = Raise ClipFinderError) /\
  _text_tile self clips clip_embeddings k = Raise ClipFinderError /\
  ((8 < length clip_embeddings)%nat ->
   (forall min_dur max_dur final_clips,
      _text_tile_multiple_rounds self clips clip_embeddings k
        min_dur max_dur final_clips = Raise ClipFinderError) /\
   (forall tr,
      sentence_info tr = clips -> sentence_embeddings tr = clip_embeddings ->
      find_clips self tr = Raise ClipFinderError)).
Proof.
  intros Hne.
  assert (Hd : forall detect,
             _text_tile_with detect clips clip_embeddings k = Raise ClipFinderError).
  { intros detect. unfold _text_tile_with.
    destruct (Nat.eqb_spec (length clip_embeddings) (length clips)); [contradiction|].
    reflexivity. }
  split; [exact Hd|]. split; [apply Hd|].
  intros HN.
  assert (Hr : forall min_dur max_dur final_clips,
             _text_tile_multiple_rounds self clips clip_embeddings k
               min_dur max_dur final_clips = Raise ClipFinderError).
  { intros. unfold _text_tile_multiple_rounds.
    destruct (length clip_embeddings) as [|fuel] eqn:El; [lia|].
    cbn [rounds]. rewrite El.
    destruct (Nat.ltb_spec 8 (S fuel)); [|lia].
    unfold _text_tile. rewrite Hd. reflexivity. }
  split; [exact Hr|].
  intros tr Hs He. unfold find_clips, tiers. cbn [for_tiers for_k_vals].
  rewrite Hs, He.
  unfold _text_tile_multiple_rounds.
  destruct (length clip_embeddings) as [|fuel] eqn:El; [lia|].
  cbn [rounds]. rewrite El.
  destruct (Nat.ltb_spec 8 (S fuel)); [|lia].
  unfold _text_tile.
  assert (Hd5 : forall detect,
             _text_tile_with detect clips clip_embeddings 5 = Raise ClipFinderError).
  { intros detect. unfold _text_tile_with. rewrite El.
    destruct (Nat.eqb_spec (S fuel) (length clips)); [lia|]. reflexivity. }
  rewrite Hd5. reflexivity.
Qed.

End DriverClaims.

(* ================================================================== *)
(** * The code run on the small transcript *)

Module Runs.
Import QNum ClipFinder Examples.
Local Open Scope string_scope.
Local Open Scope Z_scope.

(** C1 (a defect of [_text_tile]).  On ten sentences with a topic change
    after the fifth, the detector sets the flags of sentence 4 and of
    sentence 9, and pools sentences 0..4 and sentences 5..9.  The second
    merged clip nevertheless starts with sentence 4, the last sentence of
    the first group ([start_char = 40], [start_time = 4]), and not with
    sentence 5, the one after it ([start_char = 50], [start_time = 5]):
    the two clips overlap. *)
Theorem second_clip_starts_at_previous_boundary :
  TextTiler.text_tile (two_topics Q) 5 "mean" "max" 3 "high"
    = Ok ([false; false; false; false; true; false; false; false; false; true],
          [[5; 1]; [-5; 1]]%Q)
  /\ TextTiler._pool_embedding_groups (two_topics Q)
       [false; false; false; false; true; false; false; false; false; true] "max"
     = Ok [max_magnitude_2d (firstn 5 (two_topics Q));
           max_magnitude_2d (skipn 5 (two_topics Q))]
  /\ spans (_text_tile (default_finder Q) (sentences Q 1 10) (two_topics Q) 5)
     = Ok ([segment Q 0 5 0 49; segment Q 4 10 40 99], [[5; 1]; [-5; 1]]%Q)
  /\ to_segment (sentence Q 1 4) = segment Q 4 5 40 49
  /\ to_segment (sentence Q 1 5) = segment Q 5 6 50 59.
Proof. repeat apply conj; vm_compute; reflexivity. Qed.

(** The witness of C2: the ten embeddings of the small transcript. *)
Lemma text_tile_flags_and_groups_witness :
  exists flags pooled,
    TextTiler.text_tile (two_topics Q) 5 "mean" "max" 3 "high" = Ok (flags, pooled) /\
    length flags = length (two_topics Q) /\
    last flags false = true /\
    length pooled = num_set flags /\
    (1 <= length pooled)%nat.
Proof.
  apply (text_tile_flags_and_groups (two_topics Q) 5 "mean" "max" 3 "high").
  - reflexivity.
  - simpl. lia.
  - simpl. lia.
Defined.

(** C2 as stated fails: a single embedding, with the default settings. *)
Lemma text_tile_single_embedding_raises :
  TextTiler.check_valid_config 7 "mean" "max" 3 "high" = None /\
  TextTiler.text_tile [[5; 1]%Q] 7 "mean" "max" 3 "high" = Raise ValueError.
Proof. split; vm_compute; reflexivity. Qed.

(** C3 as stated fails: with depth scores [10, 0, 0] and the policy
    ['average'], position 0 is above the cutoff [10/3] and above its one
    neighbour, so by the specification's reading it qualifies; its flag
    is not set. *)
Lemma edge_position_not_flagged :
  TextTiler.cutoff_of [10; 0; 0]%Q "average" = Some (10 # 3)%Q /\
  Spec.is_boundary [10; 0; 0]%Q (10 # 3)%Q 0 = true /\
  TextTiler._identify_boundaries [10; 0; 0]%Q "average"
    = Ok [false; false; false; true].
Proof. repeat apply conj; vm_compute; reflexivity. Qed.

(** C4 as stated fails: with clips of 0 to 8 seconds allowed, the first
    round on the small transcript (one second per sentence) accepts the
    clips [0, 5] and [4, 10], which are 4 + 5 = 9 < 15 apart; the rounds of
    the seven other window sizes accept nothing. *)
Lemma same_round_near_duplicates :
  find_clips (short_clip_finder Q) (talk Q 1)
    = Ok [segment Q 0 5 0 49; segment Q 4 10 40 99] /\
  (rs <- accepted_per_round (short_clip_finder Q) (talk Q 1) ;;
   Ok (map (map to_segment) rs))
    = Ok [[segment Q 0 5 0 49; segment Q 4 10 40 99]; []; []; []; []; []; []; []] /\
  ltb (add (absv (sub 4 0)) (absv (sub 10 5)))%Q 15%Q = true.
Proof. repeat apply conj; vm_compute; reflexivity. Qed.

(** The witness of C4: ten seconds per sentence and the default
    settings. *)
Lemma accepted_apart_from_earlier_rounds_witness :
  exists rounds,
    accepted_per_round (default_finder Q) (talk Q 10) = Ok rounds /\
    [segment Q 0 100 0 100; segment Q 0 50 0 49; segment Q 40 100 40 99]
    = map to_segment (initial_clips (default_finder Q) (talk Q 10) ++ concat rounds) /\
    rounds_apart (initial_clips (default_finder Q) (talk Q 10)) rounds.
Proof.
  apply (accepted_apart_from_earlier_rounds (default_finder Q) (talk Q 10)).
  vm_compute. reflexivity.
Defined.

(** The witness of C5. *)
Lemma accepted_durations_within_tier_bounds_witness :
  let self := default_finder Q in
  let initial := initial_clips self (talk Q 10) in
  let max_dur := _max_clip_duration self in
  (exists short medium long,
     for_k_vals self (talk Q 10) [5; 7] (_min_clip_duration self) initial
       = Ok (initial ++ short)%list /\
     for_k_vals self (talk Q 10) [11; 17] (of_Z 180) (initial ++ short)%list
       = Ok (initial ++ short ++ medium)%list /\
     for_k_vals self (talk Q 10) [37; 53; 73; 97] (of_Z 600)
       (initial ++ short ++ medium)%list
       = Ok (initial ++ short ++ medium ++ long)%list /\
     [segment Q 0 100 0 100; segment Q 0 50 0 49; segment Q 40 100 40 99]
     = map to_segment (initial ++ short ++ medium ++ long)%list /\
     Forall (duration_within (_min_clip_duration self) max_dur) short /\
     Forall (duration_within (of_Z 180) max_dur) medium /\
     Forall (duration_within (of_Z 600) max_dur) long) /\
  (forall (sc ec : Z) (n : Q) (existing : list (clip Q)),
     _remove_duplicates
       [ {| start_char := sc; end_char := ec;
            start_time := 0%Q; end_time := 10%Q; norm := n |} ]
       existing 15%Q 900%Q = []).
Proof.
  apply (accepted_durations_within_tier_bounds (default_finder Q) (talk Q 10)).
  vm_compute. reflexivity.
Defined.

(** The witness of C6: a transcript of 500 seconds, the maximum at 900
    (Scenario E). *)
Lemma seed_segment_returned_witness :
  (forall segs,
     find_clips (default_finder Q) (talk Q 50) = Ok segs ->
     exists rest,
       segs = MediaSegment.Build (of_Z 0) (transcription_end_time (talk Q 50)) 0
                (num_chars (talk Q 50)) :: rest) /\
  (valid_settings (default_finder Q) ->
   _smoothing_width (default_finder Q) <= 7 ->
   length (sentence_info (talk Q 50)) = length (sentence_embeddings (talk Q 50)) ->
   exists segs, find_clips (default_finder Q) (talk Q 50) = Ok segs).
Proof.
  apply (seed_segment_returned (default_finder Q) (talk Q 50)).
  vm_compute. reflexivity.
Defined.

(** Scenario E in full: the run on the 500-second transcript. *)
Example scenario_E :
  find_clips (default_finder Q) (talk Q 50)
  = Ok [segment Q 0 500 0 100; segment Q 0 250 0 49; segment Q 200 500 40 99].
Proof. vm_compute. reflexivity. Qed.

(** The witness of C8: ten embeddings for nine clips. *)
Lemma shape_mismatch_raises_witness :
  (forall detect,
     _text_tile_with detect (sentences Q 1 9) (two_topics Q) 5
     = Raise ClipFinderError) /\
  _text_tile (default_finder Q) (sentences Q 1 9) (two_topics Q) 5
    = Raise ClipFinderError /\
  ((8 < length (two_topics Q))%nat ->
   (forall min_dur max_dur final_clips,
      _text_tile_multiple_rounds (default_finder Q) (sentences Q 1 9)
        (two_topics Q) 5 min_dur max_dur final_clips = Raise ClipFinderError) /\
   (forall tr,
      sentence_info tr = sentences Q 1 9 ->
      sentence_embeddings tr = two_topics Q ->
      find_clips (default_finder Q) tr = Raise ClipFinderError)).
Proof.
  apply (shape_mismatch_raises (default_finder Q) (sentences Q 1 9) (two_topics Q) 5).
  simpl. lia.
Defined.

(** C9 as stated fails: a window width below 3 and a score sequence
    shorter than it. *)
Lemma smooth_narrow_short_input_raises :
  TextTiler.smooth [1%Q] 2 = Raise ValueError.
Proof. vm_compute. reflexivity. Qed.

(** The guard of [smooth] lets a sequence exactly as long as the window
    through, and the result is one item short; [text_tile] then has a
    flag too few and fails on the last row. *)
Example smooth_equal_length_shrinks :
  TextTiler.smooth [1; 2; 3]%Q 3 = Ok [2; 8 # 3]%Q /\
  TextTiler.text_tile (firstn 4 (two_topics Q)) 7 "mean" "max" 3 "high"
    = Raise IndexError.
Proof. split; vm_compute; reflexivity. Qed.

(** Scenario D of the specification. *)
Example scenario_D :
  let existing := [Clip 0 0 100 200 1]%Q in
  _is_duplicate (Clip 0 0 105 195 1)%Q existing = true /\
  _is_duplicate (Clip 0 0 120 220 1)%Q existing = false.
Proof. split; reflexivity. Qed.

End Runs.

(* ================================================================== *)
(** * The same runs in binary64 arithmetic *)

Module FloatRuns.
Import FloatNum ClipFinder Examples.
Local Open Scope string_scope.
Local Open Scope Z_scope.

(** The gap scores of the small transcript, as the hardware computes
    them. *)
Example gap_scores_binary64 :
  TextTiler._calc_gap_scores (two_topics float) 5 "mean"
  = Ok [0x1.fc0bd88a0f1dap-1;  (*  0.992... *)
        0x1.aa027f059dce1p-1;  (*  0.832... *)
        -0x1.1c01aa03be896p-1; (* -0.554... *)
        -0x1.bc8a5d78cd39fp-1; (* -0.868... *)
        -0x1.d89d89d89d89fp-1; (* -0.923..., the topic change *)
        -0x1.bc8a5d78cd39fp-1;
        -0x1.1c01aa03be896p-1;
        0x1.aa027f059dce1p-1;
        0x1.fc0bd88a0f1dap-1]%float.
Proof. vm_compute. reflexivity. Qed.

(** The round of C1. *)
Example second_clip_starts_at_previous_boundary_binary64 :
  spans (_text_tile (default_finder float) (sentences float 1 10) (two_topics float) 5)
  = Ok ([segment float 0 5 0 49; segment float 4 10 40 99], [[5; 1]; [-5; 1]]%float).
Proof. vm_compute. reflexivity. Qed.

(** The runs of C2, C3, C4 and C9. *)
Example text_tile_single_embedding_raises_binary64 :
  TextTiler.text_tile [[5; 1]%float] 7 "mean" "max" 3 "high" = Raise ValueError.
Proof. vm_compute. reflexivity. Qed.

Example edge_position_not_flagged_binary64 :
  TextTiler._identify_boundaries [10; 0; 0]%float "average"
  = Ok [false; false; false; true].
Proof. vm_compute. reflexivity. Qed.

Example same_round_near_duplicates_binary64 :
  find_clips (short_clip_finder float) (talk float 1)
  = Ok [segment float 0 5 0 49; segment float 4 10 40 99].
Proof. vm_compute. reflexivity. Qed.

Example smooth_narrow_short_input_raises_binary64 :
  TextTiler.smooth [1%float] 2 = Raise ValueError.
Proof. vm_compute. reflexivity. Qed.

Example smooth_equal_length_shrinks_binary64 :
  TextTiler.smooth [1; 2; 3]%float 3
    = Ok [0x1.fffffffffffffp+0; 0x1.5555555555555p+1]%float /\
  TextTiler.text_tile (firstn 4 (two_topics float)) 7 "mean" "max" 3 "high"
    = Raise IndexError.
Proof. split; vm_compute; reflexivity. Qed.

End FloatRuns.


(* ================================================================== *)
(** * Further properties of the code *)

(** ** The boundary detector *)

Lemma num_set_cons (b : bool) (l : list bool) :
  num_set (b :: l) = ((if b then 1 else 0) + num_set l)%nat.
Proof.
  unfold num_set. cbn [count_occ].
  destruct b; destruct (Bool.bool_dec _ true); try congruence; reflexivity.
Qed.

Lemma no_two_adjacent_tail (b : bool) (l : list bool) :
  no_two_adjacent (b :: l) -> no_two_adjacent l.
Proof. intros Hn i Hi. exact (Hn (S i) Hi). Qed.

(** Of flags with no two set in a row, at most every other one is set. *)
Lemma num_set_no_two_adjacent (l : list bool) :
  no_two_adjacent l ->
  (2 * num_set l <= length l + 1)%nat /\
  (hd false l = false -> 2 * num_set l <= length l)%nat.
Proof.
  induction l as [|b l IH]; intros Hn.
  - cbn. split; intros; lia.
  - destruct (IH (no_two_adjacent_tail _ _ Hn)) as [IH1 IH2].
    rewrite num_set_cons. cbn [length hd]. destruct b.
    + split; [|discriminate].
      assert (Hh : hd false l = false).
      { specialize (Hn O eq_refl). now destruct l. }
      specialize (IH2 Hh). lia.
    + split; intros; lia.
Qed.

Section DetectorFacts.
Context {T : Type} `{Scalar T}.
Local Open Scope string_scope.
Local Open Scope Z_scope.

Lemma nth_peaks (depths : list T) (cutoff : T) (n i : nat) :
  (i < n)%nat ->
  nth i (map (TextTiler.is_peak depths cutoff) (seq 0 n)) false
  = TextTiler.is_peak depths cutoff i.
Proof.
  intros Hi.
  rewrite (nth_indep _ false (TextTiler.is_peak depths cutoff O))
    by (rewrite length_map, length_seq; lia).
  now rewrite map_nth, seq_nth by lia.
Qed.

(** Two neighbours cannot each be strictly above the other. *)
Lemma is_peak_not_next (depths : list T) (cutoff : T) (i : nat) :
  (forall x y : T, ltb x y = true -> ltb y x = false) ->
  (S i < length depths)%nat ->
  TextTiler.is_peak depths cutoff i = true ->
  TextTiler.is_peak depths cutoff (S i) = false.
Proof.
  intros Hasym Hi Hp. unfold TextTiler.is_peak, gtb in *.
  apply andb_true_iff in Hp as [_ Hp].
  replace (Z.min (Z.of_nat i + 1) (Z.of_nat (length depths) - 1))
    with (Z.of_nat (S i)) in Hp by lia.
  apply Hasym in Hp.
  replace (Z.max 0 (Z.of_nat (S i) - 1)) with (Z.of_nat i) by lia.
  rewrite Hp. now rewrite andb_false_r.
Qed.

Lemma peaks_no_two_adjacent (depths : list T) (cutoff : T) (n : nat) :
  (forall x y : T, ltb x y = true -> ltb y x = false) ->
  (n <= length depths)%nat ->
  no_two_adjacent (map (TextTiler.is_peak depths cutoff) (seq 0 n)).
Proof.
  intros Hasym Hn i Hi.
  destruct (Nat.lt_ge_cases i n) as [Hlt|Hge].
  2:{ rewrite nth_overflow in Hi by (rewrite length_map, length_seq; lia).
      discriminate. }
  rewrite nth_peaks in Hi by assumption.
  destruct (Nat.lt_ge_cases (S i) n) as [Hlt'|Hge'].
  - rewrite nth_peaks by assumption.
    apply is_peak_not_next; [assumption|lia|assumption].
  - apply nth_overflow. rewrite length_map, length_seq. lia.
Qed.

(** With an asymmetric [<], the flags of [M] depth scores and the forced
    one are set at most every other time. *)
Lemma num_set_peaks_half (depths : list T) (cutoff : T) :
  (forall x y : T, ltb x y = true -> ltb y x = false) ->
  depths <> [] ->
  (2 * S (num_set (map (TextTiler.is_peak depths cutoff) (seq 0 (length depths))))
   <= S (length depths))%nat.
Proof.
  intros Hasym Hd.
  destruct (length depths) as [|m] eqn:Em.
  { destruct depths; [congruence|discriminate]. }
  rewrite seq_S, map_app, num_set_app. cbn [map Nat.add].
  rewrite (is_peak_last depths cutoff m) by lia.
  rewrite num_set_cons. cbn [num_set count_occ].
  destruct (num_set_no_two_adjacent
              (map (TextTiler.is_peak depths cutoff) (seq 0 m))) as [_ Hh].
  { apply peaks_no_two_adjacent; [assumption|lia]. }
  rewrite length_map, length_seq in Hh.
  assert (Hhd : hd false (map (TextTiler.is_peak depths cutoff) (seq 0 m)) = false).
  { destruct m; [reflexivity|]. cbn [seq map hd]. apply is_peak_first. }
  specialize (Hh Hhd). lia.
Qed.

Lemma text_tile_round_halves
    (self : ClipFinder.config T) (clips : list (ClipFinder.clip T))
    (clip_embeddings : list (vec T)) (k : Z)
    (super_clips : list (ClipFinder.clip T)) (super_embeddings : list (vec T)) :
  (forall x y : T, ltb x y = true -> ltb y x = false) ->
  (2 <= length clip_embeddings)%nat ->
  ClipFinder._text_tile self clips clip_embeddings k
    = Ok (super_clips, super_embeddings) ->
  (2 * length super_embeddings <= length clip_embeddings)%nat.
Proof.
  intros Hasym HN Et.
  unfold ClipFinder._text_tile, ClipFinder._text_tile_with in Et.
  destruct (negb _); [discriminate|].
  apply bind_Ok_inv in Et as ([flags pooled] & Et & E).
  apply bind_Ok_inv in E as (sc & _ & E). injection E as _ <-.
  apply text_tile_shape in Et as (depths & cutoff & Ef & Hfl & Hpl).
  assert (Hd : S (length depths) = length clip_embeddings).
  { rewrite <- Hfl, Ef, length_app, length_map, length_seq. cbn. lia. }
  rewrite Hpl, Ef, num_set_app, <- Hd.
  replace (num_set [true]) with 1%nat by (rewrite num_set_cons; reflexivity).
  rewrite Nat.add_1_r. apply num_set_peaks_half; [assumption|].
  intros ->. cbn in Hd. lia.
Qed.

(** The detector by the number [N] of embeddings, for a valid
    configuration: no embedding is a [RuntimeError], one or two a
    [ValueError] (their one score or none is fewer than the smoothing width
    of 2 they are given), one more than the smoothing width an [IndexError]
    (the smoothed scores are one short, and so are the flags); every other
    [N] returns. *)
Theorem text_tile_outcome_by_length
    (embeddings : list (vec T)) (k : Z) (wc agg : string) (w : Z) (policy : string) :
  TextTiler.check_valid_config k wc agg w policy = None ->
  let N := length embeddings in
  let r := TextTiler.text_tile embeddings k wc agg w policy in
  (N = 0%nat -> r = Raise RuntimeError) /\
  (N = 1%nat \/ N = 2%nat -> r = Raise ValueError) /\
  (Z.of_nat N = w + 1 -> r = Raise IndexError) /\
  ((3 <= N)%nat -> Z.of_nat N <> w + 1 -> is_ok r = true).
Proof.
  intros Hv N r.
  pose proof Hv as Hv'.
  apply check_valid_config_None in Hv' as (Hpol & Hagg & Hk & Hw3 & Hwc).
  destruct (get_pool_method_valid wc Hwc) as [pool Epool].
  assert (Hr : r = (unsmoothed_scores <-
                      TextTiler._calc_gap_scores embeddings
                        (if k >=? Z.of_nat N then Z.max (Z.of_nat N / 5) 2 else k) wc ;;
                    smoothed_scores <-
                      TextTiler._smooth_scores unsmoothed_scores
                        (if w >=? Z.of_nat N then 2 else w) ;;
                    let depth_scores := TextTiler._calc_depth_scores smoothed_scores in
                    boundaries <- TextTiler._identify_boundaries depth_scores policy ;;
                    pooled_embeddings <-
                      TextTiler._pool_embedding_groups embeddings boundaries agg ;;
                    Ok (boundaries, pooled_embeddings))).
  { unfold r, TextTiler.text_tile, TextTiler.assert_valid_config. now rewrite Hv. }
  repeat apply conj.
  - intros HN. rewrite Hr. unfold TextTiler._calc_gap_scores.
    rewrite Epool. cbn [bind]. fold N. rewrite HN. reflexivity.
  - intros HN. rewrite Hr.
    destruct (calc_gap_scores_ok embeddings
                (if k >=? Z.of_nat N then Z.max (Z.of_nat N / 5) 2 else k) wc Hwc)
      as [u Eu].
    { intros E. unfold N in HN. rewrite E in HN. cbn in HN. lia. }
    rewrite Eu. cbn [bind]. apply calc_gap_scores_inv in Eu. fold N in Eu.
    destruct (Z.geb_spec w (Z.of_nat N)); [|lia].
    unfold TextTiler._smooth_scores. rewrite smooth_too_short by lia. reflexivity.
  - intros HN. rewrite Hr.
    destruct (calc_gap_scores_ok embeddings
                (if k >=? Z.of_nat N then Z.max (Z.of_nat N / 5) 2 else k) wc Hwc)
      as [u Eu].
    { intros E. unfold N in HN. rewrite E in HN. cbn in HN. lia. }
    rewrite Eu. cbn [bind]. apply calc_gap_scores_inv in Eu. fold N in Eu.
    destruct (Z.geb_spec w (Z.of_nat N)); [lia|].
    unfold TextTiler._smooth_scores.
    destruct (smooth_wide u w) as (sm & Esm & Hsm); [lia|].
    rewrite Esm. cbn [bind].
    destruct (Z.eqb_spec w (Z.of_nat (length u))); [|lia].
    set (depths := TextTiler._calc_depth_scores sm).
    destruct (cutoff_of_valid depths policy Hpol) as [cutoff Ec].
    rewrite (identify_boundaries_eq _ _ _ Ec). cbn [bind].
    unfold TextTiler._pool_embedding_groups.
    destruct (get_pool_method_valid agg Hagg) as [pool' Epool'].
    rewrite Epool'. cbn [bind].
    rewrite pool_groups_from_short; [reflexivity|].
    rewrite length_app, length_map, length_seq. unfold depths.
    rewrite calc_depth_scores_length. fold N. cbn [length]. lia.
  - intros HN Hne.
    destruct (text_tile_returns embeddings k wc agg w policy Hv HN Hne)
      as (flags & pooled & Et).
    unfold r. now rewrite Et.
Qed.

(** [smooth] on a sequence of exactly [window_len >= 3] items returns one
    item fewer: the guard only refuses shorter sequences, and the left
    padding [x[window_len:1:-1]] then has one item less than the trimming
    removes. *)
Theorem smooth_window_sized_input_loses_one (x : list T) (window_len : Z) :
  3 <= window_len ->
  Z.of_nat (length x) = window_len ->
  exists y, TextTiler.smooth x window_len = Ok y /\ S (length y) = length x.
Proof.
  intros HL Hx. destruct (smooth_wide x window_len) as (y & Ey & Hy); [lia|].
  exists y. split; [exact Ey|].
  destruct (Z.eqb_spec window_len (Z.of_nat (length x))); lia.
Qed.

(** With a [<] that is asymmetric (as on floats and on rationals), no two
    neighbouring positions are flagged, so a returning round leaves at
    most half of its items; a sequence of at most [8 * 2^r] items is
    therefore down to 8 or fewer, and the loop over, within [r] rounds. *)
Theorem rounds_halve_the_sequence
    (self : ClipFinder.config T) (clips : list (ClipFinder.clip T))
    (clip_embeddings : list (vec T)) (k : Z)
    (min_dur max_dur : T) (final_clips : list (ClipFinder.clip T)) :
  (forall x y : T, ltb x y = true -> ltb y x = false) ->
  (forall super_clips super_embeddings,
     (2 <= length clip_embeddings)%nat ->
     ClipFinder._text_tile self clips clip_embeddings k
       = Ok (super_clips, super_embeddings) ->
     (2 * length super_embeddings <= length clip_embeddings)%nat) /\
  (forall r : nat,
     (length clip_embeddings <= 8 * 2 ^ r)%nat ->
     halts (ClipFinder.rounds r self clips clip_embeddings k
              min_dur max_dur final_clips) = true).
Proof.
  intros Hasym. split.
  - intros sc se HN Et. now apply (text_tile_round_halves self clips _ k sc se).
  - intros r. revert clips clip_embeddings final_clips.
    induction r as [|r IH]; intros clips embs final Hr; cbn [ClipFinder.rounds].
    + destruct (Nat.ltb_spec 8 (length embs)); [cbn in Hr; lia|reflexivity].
    + destruct (Nat.ltb_spec 8 (length embs)); [|reflexivity].
      destruct (ClipFinder._text_tile self clips embs k) as [[sc se]| |] eqn:Et;
        cbn [bind]; try reflexivity.
      * apply IH.
        apply text_tile_round_halves in Et; [|assumption|lia].
        rewrite Nat.pow_succ_r' in Hr. lia.
      * pose proof (text_tile_round_halts self clips embs k) as Hh.
        rewrite Et in Hh. discriminate.
Qed.

(** *** Pooling *)



End DetectorFacts.

(** ** The driver *)

Section DriverFacts.
Context {T : Type} `{Scalar T}.
Import ClipFinder.
Local Open Scope Z_scope.

(** *** The acceptance filter *)

Lemma is_duplicate_existsb (seg : clip T) (existing : list (clip T)) :
  _is_duplicate seg existing
  = existsb (fun ref => ltb (time_delta seg ref) (of_Z 15)) existing.
Proof.
  induction existing as [|ref rest IH]; cbn [_is_duplicate existsb]; [reflexivity|].
  rewrite IH. now destruct (ltb (time_delta seg ref) (of_Z 15)).
Qed.

Lemma remove_duplicates_filter
    (potential existing : list (clip T)) (min_dur max_dur : T) :
  _remove_duplicates potential existing min_dur max_dur
  = filter (fun c =>
              leb min_dur (sub (end_time c) (start_time c))
              && leb (sub (end_time c) (start_time c)) max_dur
              && negb (_is_duplicate c existing))
           potential.
Proof.
  induction potential as [|c rest IH]; cbn [_remove_duplicates filter]; [reflexivity|].
  rewrite IH.
  destruct (leb min_dur _ && leb _ max_dur); cbn [negb andb]; [|reflexivity].
  now destruct (_is_duplicate c existing).
Qed.

Lemma is_duplicate_false_iff (seg : clip T) (existing : list (clip T)) :
  _is_duplicate seg existing = false <-> Forall (apart seg) existing.
Proof.
  rewrite is_duplicate_existsb. split.
  - intros E. apply Forall_forall. intros ref Hin.
    unfold apart. destruct (ltb (time_delta seg ref) (of_Z 15)) eqn:Ed; [|reflexivity].
    assert (existsb (fun ref => ltb (time_delta seg ref) (of_Z 15)) existing = true)
      by (apply existsb_exists; eauto).
    congruence.
  - intros Hall.
    destruct (existsb _ existing) eqn:E; [|reflexivity].
    apply existsb_exists in E as (ref & Hin & Ed).
    rewrite Forall_forall in Hall. specialize (Hall ref Hin).
    unfold apart in Hall. congruence.
Qed.

Lemma remove_duplicates_In
    (potential existing : list (clip T)) (min_dur max_dur : T) (c : clip T) :
  In c (_remove_duplicates potential existing min_dur max_dur) <->
  In c potential /\ duration_within min_dur max_dur c /\ Forall (apart c) existing.
Proof.
  rewrite remove_duplicates_filter, filter_In.
  rewrite !andb_true_iff, negb_true_iff, is_duplicate_false_iff.
  unfold duration_within. tauto.
Qed.

Lemma remove_duplicates_mono
    (potential existing more : list (clip T)) (min_dur max_dur : T) (c : clip T) :
  In c (_remove_duplicates potential (existing ++ more) min_dur max_dur) ->
  In c (_remove_duplicates potential existing min_dur max_dur).
Proof.
  intros Hc. apply remove_duplicates_In in Hc as (Hp & Hd & Ha).
  apply remove_duplicates_In.
  split; [exact Hp|]. split; [exact Hd|]. apply Forall_app in Ha. tauto.
Qed.

(** [_remove_duplicates] returns, in their order, exactly the candidates
    whose duration is within the bounds and which [_is_duplicate] does not
    find within 15 seconds of an existing clip; [_is_duplicate] is true iff
    some existing clip is that close.  More existing clips never get a
    candidate accepted that was rejected before. *)
Theorem remove_duplicates_accepts_exactly
    (potential existing : list (clip T)) (min_dur max_dur : T) :
  (forall c,
     In c (_remove_duplicates potential existing min_dur max_dur) <->
     In c potential /\ duration_within min_dur max_dur c /\
     Forall (apart c) existing) /\
  (exists keep, _remove_duplicates potential existing min_dur max_dur
                = filter keep potential) /\
  (forall seg,
     _is_duplicate seg existing = true <->
     exists ref, In ref existing /\ ltb (time_delta seg ref) (of_Z 15) = true) /\
  (forall more c,
     In c (_remove_duplicates potential (existing ++ more) min_dur max_dur) ->
     In c (_remove_duplicates potential existing min_dur max_dur)).
Proof.
  split; [intros c; apply remove_duplicates_In|].
  split; [eexists; apply remove_duplicates_filter|]. split.
  - intros seg. rewrite is_duplicate_existsb. apply existsb_exists.
  - intros more c. apply remove_duplicates_mono.
Qed.

Lemma remove_duplicates_incl
    (potential existing : list (clip T)) (min_dur max_dur : T) (c : clip T) :
  In c (_remove_duplicates potential existing min_dur max_dur) -> In c potential.
Proof. rewrite remove_duplicates_filter, filter_In. tauto. Qed.

(** *** The merge loop *)

Lemma merge_loop_prefix
    (clips : list (clip T)) (boundaries : list bool) (new_embeddings : list (vec T)) :
  forall idxs super_clips start_idx super_idx r,
    merge_loop clips boundaries new_embeddings idxs super_clips start_idx super_idx
    = Ok r ->
    exists new, r = (super_clips ++ new)%list.
Proof.
  induction idxs as [|i idxs IH]; intros acc s j r; cbn [merge_loop].
  - intros [= <-]. exists []. now rewrite app_nil_r.
  - destruct (nth_error boundaries i) as [b|]; [|discriminate].
    destruct (Bool.eqb b BOUNDARY); [|apply IH].
    destruct (nth_error clips s); [|discriminate].
    destruct (nth_error clips i); [|discriminate].
    destruct (nth_error new_embeddings j); [|discriminate].
    intros E. apply IH in E as [new ->]. rewrite <- app_assoc. eauto.
Qed.

(** Every merged clip runs from the beginning of a unit to the end of a
    unit. *)
Lemma merge_loop_aligned
    (clips : list (clip T)) (boundaries : list bool) (new_embeddings : list (vec T)) :
  forall idxs super_clips start_idx super_idx r,
    merge_loop clips boundaries new_embeddings idxs super_clips start_idx super_idx
    = Ok r ->
    Forall (aligned clips) super_clips ->
    Forall (aligned clips) r.
Proof.
  induction idxs as [|i idxs IH]; intros acc s j r; cbn [merge_loop].
  - now intros [= <-].
  - destruct (nth_error boundaries i) as [b|]; [|discriminate].
    destruct (Bool.eqb b BOUNDARY); [|apply IH].
    destruct (nth_error clips s) as [first|] eqn:E1; [|discriminate].
    destruct (nth_error clips i) as [final|] eqn:E2; [|discriminate].
    destruct (nth_error new_embeddings j); [|discriminate].
    intros E Hacc. eapply IH; [exact E|].
    apply Forall_app. split; [exact Hacc|]. constructor; [|constructor].
    split; [exists first|exists final]; cbn;
      (split; [eapply nth_error_In; eassumption|split; reflexivity]).
Qed.

(** The first merged clip begins with the unit at [start_idx]. *)
Lemma merge_loop_first
    (clips : list (clip T)) (boundaries : list bool) (new_embeddings : list (vec T)) :
  forall idxs start_idx super_idx c r,
    merge_loop clips boundaries new_embeddings idxs [] start_idx super_idx
    = Ok (c :: r) ->
    exists u, nth_error clips start_idx = Some u /\
              start_char c = start_char u /\ start_time c = start_time u.
Proof.
  induction idxs as [|i idxs IH]; intros s j c r; cbn [merge_loop]; [discriminate|].
  destruct (nth_error boundaries i) as [b|]; [|discriminate].
  destruct (Bool.eqb b BOUNDARY); [|apply IH].
  destruct (nth_error clips s) as [first|] eqn:E1; [|discriminate].
  destruct (nth_error clips i) as [final|]; [|discriminate].
  destruct (nth_error new_embeddings j); [|discriminate].
  intros E. apply merge_loop_prefix in E as [new E]. cbn [app] in E.
  injection E as -> _. exists first. cbn. auto.
Qed.

(** When the last index visited is flagged, the last merged clip ends with
    the unit at that index. *)
Lemma merge_loop_last
    (clips : list (clip T)) (boundaries : list bool) (new_embeddings : list (vec T))
    (d : clip T) :
  forall idxs super_clips start_idx super_idx r,
    idxs <> [] ->
    nth_error boundaries (last idxs O) = Some true ->
    merge_loop clips boundaries new_embeddings idxs super_clips start_idx super_idx
    = Ok r ->
    exists v, nth_error clips (last idxs O) = Some v /\
              end_char (last r d) = end_char v /\ end_time (last r d) = end_time v.
Proof.
  induction idxs as [|i idxs IH]; intros acc s j r Hne Hb; [congruence|].
  destruct idxs as [|i' idxs'].
  - cbn [last] in Hb |- *. cbn [merge_loop]. rewrite Hb. cbn [Bool.eqb BOUNDARY].
    destruct (nth_error clips s); [|discriminate].
    destruct (nth_error clips i) as [final|]; [|discriminate].
    destruct (nth_error new_embeddings j); [|discriminate].
    intros [= <-]. exists final. rewrite last_last. cbn. auto.
  - change (last (i :: i' :: idxs') O) with (last (i' :: idxs') O) in Hb |- *.
    assert (Hrest : i' :: idxs' <> []) by discriminate.
    remember (i' :: idxs') as rest eqn:Erest. clear Erest.
    cbn [merge_loop].
    destruct (nth_error boundaries i) as [b|]; [|discriminate].
    destruct (Bool.eqb b BOUNDARY).
    + destruct (nth_error clips s); [|discriminate].
      destruct (nth_error clips i); [|discriminate].
      destruct (nth_error new_embeddings j); [|discriminate].
      apply IH; assumption.
    + apply IH; assumption.
Qed.

Lemma nth_error_last_cons {A} (x : A) (l : list A) (d : A) :
  nth_error (x :: l) (length l) = Some (last (x :: l) d).
Proof.
  revert x. induction l as [|y l IH]; intros x; [reflexivity|].
  cbn [length nth_error]. rewrite IH. reflexivity.
Qed.

Lemma text_tile_round_aligned
    (self : config T) (clips : list (clip T)) (clip_embeddings : list (vec T)) (k : Z)
    (super_clips : list (clip T)) (super_embeddings : list (vec T)) :
  _text_tile self clips clip_embeddings k = Ok (super_clips, super_embeddings) ->
  Forall (aligned clips) super_clips.
Proof.
  intros Et. unfold _text_tile, _text_tile_with in Et.
  destruct (negb _); [discriminate|].
  apply bind_Ok_inv in Et as ([flags pooled] & Et & E).
  apply bind_Ok_inv in E as (sc & Em & E). injection E as <- <-.
  eapply merge_loop_aligned; [exact Em|constructor].
Qed.

(** A returning round merges into clips that run from the beginning of a
    unit to the end of a unit; the first of them begins with the first
    unit and the last of them ends with the last unit. *)
Theorem text_tile_round_covers
    (self : config T) (clips : list (clip T)) (clip_embeddings : list (vec T)) (k : Z)
    (super_clips : list (clip T)) (super_embeddings : list (vec T)) :
  _text_tile self clips clip_embeddings k = Ok (super_clips, super_embeddings) ->
  Forall (aligned clips) super_clips /\
  exists u units c merged,
    clips = u :: units /\ super_clips = c :: merged /\
    start_char c = start_char u /\ start_time c = start_time u /\
    end_char (last super_clips c) = end_char (last clips u) /\
    end_time (last super_clips c) = end_time (last clips u).
Proof.
  intros Et. pose proof (text_tile_round_inv _ _ _ _ _ _ Et) as (Hl & Hsl & Hse & _).
  pose proof (text_tile_round_aligned _ _ _ _ _ _ Et) as Hal.
  unfold _text_tile, _text_tile_with in Et.
  destruct (negb _); [discriminate|].
  apply bind_Ok_inv in Et as ([flags pooled] & Et & E).
  apply bind_Ok_inv in E as (sc & Em & E). injection E as <- <-.
  apply text_tile_shape in Et as (depths & cutoff & Ef & Hfl & Hpl).
  split; [exact Hal|]. clear Hal.
  destruct sc as [|c merged]; [cbn in Hsl; lia|].
  destruct clips as [|u units].
  { cbn in Hl. rewrite <- Hl in Hfl. rewrite Ef, length_app in Hfl. cbn in Hfl. lia. }
  exists u, units, c, merged.
  destruct (merge_loop_first _ _ _ _ _ _ _ _ Em) as (u' & Eu & Hc1 & Hc2).
  cbn in Eu. injection Eu as <-.
  assert (Hlast : last (Py.range (length (u :: units))) O = length units).
  { unfold Py.range. cbn [length]. rewrite seq_S. cbn [Nat.add]. apply last_last. }
  assert (Hne : Py.range (length (u :: units)) <> [])
    by (unfold Py.range; cbn; discriminate).
  assert (Hflag : nth_error flags (last (Py.range (length (u :: units))) O) = Some true).
  { rewrite Hlast, Ef.
    assert (Hd : length depths = length units).
    { rewrite <- Hl, Ef, length_app, length_map, length_seq in Hfl.
      cbn [length] in Hfl. lia. }
    rewrite nth_error_app2 by (rewrite length_map, length_seq; lia).
    rewrite length_map, length_seq, Hd, Nat.sub_diag. reflexivity. }
  destruct (merge_loop_last (u :: units) flags pooled c _ _ _ _ _ Hne Hflag Em)
    as (v & Ev & Hv1 & Hv2).
  rewrite Hlast in Ev.
  rewrite (nth_error_last_cons u units u) in Ev. injection Ev as <-.
  repeat split; assumption.
Qed.

(** *** The whole run *)

Lemma aligned_trans (units clips : list (clip T)) (c : clip T) :
  Forall (aligned units) clips -> aligned clips c -> aligned units c.
Proof.
  intros Hall [(u & Hu & Eu1 & Eu2) (v & Hv & Ev1 & Ev2)].
  rewrite Forall_forall in Hall.
  destruct (Hall u Hu) as [(u' & Hu' & Eu1' & Eu2') _].
  destruct (Hall v Hv) as [_ (v' & Hv' & Ev1' & Ev2')].
  split; [exists u'|exists v']; repeat split; congruence.
Qed.

Lemma aligned_self (units : list (clip T)) : Forall (aligned units) units.
Proof.
  apply Forall_forall. intros u Hu. split; exists u; auto.
Qed.

Lemma rounds_accepted_aligned
    (self : config T) (k : Z) (min_dur max_dur : T) (units : list (clip T)) :
  forall (fuel : nat) (clips : list (clip T)) (clip_embeddings : list (vec T))
         (final_clips : list (clip T)) (rs : list (list (clip T))),
    Forall (aligned units) clips ->
    rounds_accepted fuel self clips clip_embeddings k min_dur max_dur final_clips
    = Ok rs ->
    Forall (aligned units) (concat rs).
Proof.
  induction fuel as [|fuel IH]; intros clips embs final rs Hal;
    cbn [rounds_accepted];
    (destruct (8 <? length embs)%nat; [|intros [= <-]; constructor]).
  - discriminate.
  - intros E. apply bind_Ok_inv in E as ([sc se] & Et & E).
    apply bind_Ok_inv in E as (later & El & E). injection E as <-.
    assert (Hsc : Forall (aligned units) sc).
    { pose proof (text_tile_round_aligned _ _ _ _ _ _ Et) as Hsc.
      apply Forall_forall. intros c Hc. rewrite Forall_forall in Hsc.
      eapply aligned_trans; eauto. }
    cbn [concat]. apply Forall_app. split; [|eauto].
    apply Forall_forall. intros c Hc. apply remove_duplicates_incl in Hc.
    rewrite Forall_forall in Hsc. auto.
Qed.

Lemma for_k_vals_accepted_aligned (self : config T) (tr : transcription T) (min_sec : T) :
  forall (k_vals : list Z) (clips : list (clip T)) (rs : list (list (clip T))),
    for_k_vals_accepted self tr k_vals min_sec clips = Ok rs ->
    Forall (aligned (sentence_info tr)) (concat rs).
Proof.
  induction k_vals as [|k rest IH]; intros clips rs; cbn [for_k_vals_accepted].
  - intros [= <-]. constructor.
  - intros E. apply bind_Ok_inv in E as (now & En & E).
    apply bind_Ok_inv in E as (later & El & E). injection E as <-.
    rewrite concat_app. apply Forall_app. split; [|eauto].
    eapply rounds_accepted_aligned; [apply aligned_self|exact En].
Qed.

Lemma for_tiers_accepted_aligned (self : config T) (tr : transcription T) :
  forall (ts : list (list Z * T)) (clips : list (clip T)) (rs : list (list (clip T))),
    for_tiers_accepted self tr ts clips = Ok rs ->
    Forall (aligned (sentence_info tr)) (concat rs).
Proof.
  induction ts as [|[k_vals min_sec] rest IH]; intros clips rs;
    cbn [for_tiers_accepted].
  - intros [= <-]. constructor.
  - intros E. apply bind_Ok_inv in E as (now & En & E).
    apply bind_Ok_inv in E as (later & El & E). injection E as <-.
    rewrite concat_app. apply Forall_app. split; [|eauto].
    eapply for_k_vals_accepted_aligned; exact En.
Qed.

(** Every segment [find_clips] returns after the whole-transcript one (when
    there is one) begins where a sentence begins and ends where a sentence
    ends, in seconds and in characters. *)
Theorem find_clips_segments_on_sentence_bounds
    (self : config T) (tr : transcription T) (segs : list (MediaSegment.t T)) :
  find_clips self tr = Ok segs ->
  exists tiled,
    segs = (map to_segment (initial_clips self tr) ++ tiled)%list /\
    Forall (fun s =>
              (exists u, In u (sentence_info tr) /\
                 MediaSegment.begin_sec s = start_time u /\
                 MediaSegment.text_start_idx s = start_char u) /\
              (exists v, In v (sentence_info tr) /\
                 MediaSegment.finish_sec s = end_time v /\
                 MediaSegment.text_end_idx s = end_char v))
           tiled.
Proof.
  intros E. rewrite find_clips_accepted_eq in E.
  apply bind_Ok_inv in E as (rs & Er & E). injection E as <-.
  exists (map to_segment (concat rs)). split; [apply map_app|].
  apply for_tiers_accepted_aligned in Er.
  apply Forall_forall. intros s Hs. apply in_map_iff in Hs as (c & <- & Hc).
  rewrite Forall_forall in Er.
  destruct (Er c Hc) as [(u & Hu & E1 & E2) (v & Hv & E3 & E4)].
  split; [exists u|exists v]; cbn; auto.
Qed.

(** With 8 embeddings or fewer no round is run: [find_clips] returns the
    whole-transcript segment if the transcript is short enough, and
    nothing otherwise; the settings and the number of sentences play no
    part. *)
Theorem find_clips_without_rounds (self : config T) (tr : transcription T) :
  (length (sentence_embeddings tr) <= 8)%nat ->
  find_clips self tr
  = Ok (if leb (transcription_end_time tr) (_max_clip_duration self)
        then [MediaSegment.Build (of_Z 0) (transcription_end_time tr) 0 (num_chars tr)]
        else []).
Proof.
  intros Hn.
  assert (Hr : forall k min_sec clips,
             _text_tile_multiple_rounds self (sentence_info tr)
               (sentence_embeddings tr) k min_sec (_max_clip_duration self) clips
             = Ok clips).
  { intros. unfold _text_tile_multiple_rounds.
    generalize (length (sentence_embeddings tr)) at 1. intros fuel.
    destruct fuel; cbn [rounds];
      (destruct (Nat.ltb_spec 8 (length (sentence_embeddings tr))); [lia|reflexivity]). }
  unfold find_clips, tiers. cbn [for_tiers for_k_vals].
  repeat (rewrite Hr; cbn [bind]).
  unfold initial_clips. destruct (leb _ _); reflexivity.
Qed.

End DriverFacts.

(** ** Over exact rationals *)

Module QFacts.
Import QNum ClipFinder.
Local Open Scope Q_scope.

Lemma qltb_true (x y : Q) : qltb x y = true <-> x < y.
Proof.
  unfold qltb. rewrite negb_true_iff. split.
  - intros E. apply Qnot_le_lt. intros Hle. apply Qle_bool_iff in Hle. congruence.
  - intros Hlt. destruct (Qle_bool y x) eqn:E; [|reflexivity].
    apply Qle_bool_iff in E. exfalso. exact (Qlt_not_le _ _ Hlt E).
Qed.

Lemma qltb_false (x y : Q) : qltb x y = false <-> y <= x.
Proof.
  unfold qltb. rewrite negb_false_iff. apply Qle_bool_iff.
Qed.

Lemma qltb_asym (x y : Q) : qltb x y = true -> qltb y x = false.
Proof. rewrite qltb_true, qltb_false. apply Qlt_le_weak. Qed.

(** A pass that keeps the better of the running item and the next one
    ends on an item no other one is better than. *)
Lemma fold_pick_largest {A} (f : A -> Q) (xs : list A) :
  forall x,
    let r := fold_left (fun m it => if qltb (f m) (f it) then it else m) xs x in
    f x <= f r /\ Forall (fun y => f y <= f r) xs.
Proof.
  induction xs as [|y xs IH]; intros x; cbn [fold_left].
  - split; [apply Qle_refl|constructor].
  - destruct (qltb (f x) (f y)) eqn:E.
    + destruct (IH y) as [Hy Hall]. apply qltb_true in E.
      split; [|constructor; assumption].
      apply Qle_trans with (f y); [apply Qlt_le_weak|]; assumption.
    + destruct (IH x) as [Hx Hall]. apply qltb_false in E.
      split; [assumption|constructor; [|assumption]].
      apply Qle_trans with (f x); assumption.
Qed.

(** In every column, no entry has a larger absolute value than the entry
    [max_magnitude_2d] returns. *)
Theorem max_magnitude_2d_is_largest (rows : list (vec Q)) (j : nat) :
  (j < width rows)%nat ->
  Forall (fun y => Qabs y <= Qabs (nth j (max_magnitude_2d rows) 0))
         (column rows j).
Proof.
  intros Hj. unfold max_magnitude_2d, Py.range.
  rewrite (nth_indep _ 0
             (match column rows O with
              | [] => zero
              | x :: xs =>
                fold_left (fun m it => if gtb (absv it) (absv m) then it else m) xs x
              end)) by (rewrite length_map, length_seq; lia).
  rewrite (map_nth (fun j => match column rows j with
                             | [] => zero
                             | x :: xs => fold_left _ xs x
                             end)), seq_nth by lia.
  cbn [Nat.add].
  destruct (column rows j) as [|x xs]; [constructor|].
  destruct (fold_pick_largest Qabs xs x) as [Hx Hall].
  constructor; assumption.
Qed.

(** The depth score of every position is non-negative: the peaks on
    either side are taken over ranges that include the position itself. *)
Theorem depth_scores_nonnegative (gap_scores : list Q) :
  Forall (fun d => 0 <= d) (TextTiler._calc_depth_scores gap_scores).
Proof.
  unfold TextTiler._calc_depth_scores, Py.range.
  apply Forall_forall. intros d Hd. apply in_map_iff in Hd as (i & <- & Hi).
  apply in_seq in Hi. set (g := nth i gap_scores zero).
  assert (Hpeak : forall f n,
             f O = g ->
             g <= py_max zero (map f (seq 0 (S n)))).
  { intros f n Hf. cbn [seq map py_max]. rewrite Hf.
    exact (proj1 (fold_pick_largest (fun q => q) (map f (seq 1 n)) g)). }
  assert (Hl : g <= py_max zero
                      (map (fun j : nat =>
                              Py.item zero gap_scores
                                (Z.max 0 (Z.of_nat i - Z.of_nat j)))
                           (seq 0 (i + 1)))).
  { rewrite Nat.add_1_r. apply Hpeak. unfold Py.item, g.
    replace (Z.to_nat (Z.max 0 (Z.of_nat i - Z.of_nat 0))) with i by lia.
    reflexivity. }
  assert (Hr : g <= py_max zero
                      (map (fun j : nat =>
                              Py.item zero gap_scores
                                (Z.min (Z.of_nat (length gap_scores) - 1)
                                       (Z.of_nat i + Z.of_nat j)))
                           (seq 0 (length gap_scores - i)))).
  { replace (length gap_scores - i)%nat with (S (length gap_scores - i - 1)) by lia.
    apply Hpeak. unfold Py.item, g.
    replace (Z.to_nat (Z.min (Z.of_nat (length gap_scores) - 1)
                             (Z.of_nat i + Z.of_nat 0))) with i by lia.
    reflexivity. }
  apply Qle_minus_iff in Hl, Hr.
  cbn [add sub Q_Scalar]. rewrite !Qred_correct.
  apply Qle_trans with (0 + 0); [discriminate|].
  apply Qplus_le_compat; assumption.
Qed.

(** *** Clips that are proposed again *)

Lemma time_delta_self (c : clip Q) : ltb (time_delta c c) (of_Z 15) = true.
Proof.
  cbn [ltb Q_Scalar]. apply qltb_true.
  unfold time_delta. cbn [add sub absv of_Z Q_Scalar].
  rewrite !Qred_correct. unfold Qminus. rewrite !Qplus_opp_r. reflexivity.
Qed.

(** A clip that is already in the list is a duplicate, so candidates that
    were proposed once are all rejected when they are proposed again: a
    second pass over the same candidates accepts nothing. *)
Theorem proposed_again_accepts_nothing
    (potential existing : list (clip Q)) (min_dur max_dur : Q) :
  (forall c, In c existing -> _is_duplicate c existing = true) /\
  _remove_duplicates potential
    (existing ++ _remove_duplicates potential existing min_dur max_dur)
    min_dur max_dur = [].
Proof.
  assert (Hself : forall c ex, In c ex -> _is_duplicate c ex = true).
  { intros c ex Hin. rewrite is_duplicate_existsb. apply existsb_exists.
    exists c. split; [exact Hin|apply time_delta_self]. }
  split; [intros c; apply Hself|].
  destruct (_remove_duplicates potential
              (existing ++ _remove_duplicates potential existing min_dur max_dur)
              min_dur max_dur) as [|c l] eqn:E; [reflexivity|].
  exfalso.
  assert (Hc : In c (_remove_duplicates potential
                       (existing ++ _remove_duplicates potential existing
                                      min_dur max_dur) min_dur max_dur))
    by (rewrite E; now left).
  clear E.
  pose proof (remove_duplicates_mono _ _ _ _ _ _ Hc) as Hfirst.
  apply remove_duplicates_In in Hc as (_ & _ & Hapart).
  rewrite Forall_forall in Hapart.
  specialize (Hapart c ltac:(apply in_or_app; now right)).
  unfold apart in Hapart. rewrite time_delta_self in Hapart. discriminate.
Qed.

Lemma Qeq_bool_sym_eq (x y : Q) : Qeq_bool x y = Qeq_bool y x.
Proof.
  destruct (Qeq_bool x y) eqn:E1, (Qeq_bool y x) eqn:E2; try reflexivity.
  - apply Qeq_bool_iff in E1. symmetry in E1. apply Qeq_bool_iff in E1. congruence.
  - apply Qeq_bool_iff in E2. symmetry in E2. apply Qeq_bool_iff in E2. congruence.
Qed.

Lemma Qeq_bool_comp_l (x y z : Q) : x == y -> Qeq_bool x z = Qeq_bool y z.
Proof.
  intros E. destruct (Qeq_bool x z) eqn:E1, (Qeq_bool y z) eqn:E2; try reflexivity.
  - apply Qeq_bool_iff in E1. rewrite E in E1. apply Qeq_bool_iff in E1. congruence.
  - apply Qeq_bool_iff in E2. rewrite <- E in E2. apply Qeq_bool_iff in E2. congruence.
Qed.

(** *** Equality of segments *)

Import MediaSegmentMethods.

(** Over exact numbers, [__eq__] is an equivalence on segments that holds
    between a segment and its clone, it is false against anything that is
    not a segment, equal segments have the same truth value, and [__ne__]
    is its negation. *)
Theorem media_segment_eq_equivalence (a b c : MediaSegment.t Q) :
  __eq__ a (Segment (clone a)) = true /\
  __eq__ a (Segment b) = __eq__ b (Segment a) /\
  (__eq__ a (Segment b) = true -> __eq__ b (Segment c) = true ->
   __eq__ a (Segment c) = true) /\
  (__eq__ a (Segment b) = true ->
   MediaSegment.__bool__ a = MediaSegment.__bool__ b) /\
  __eq__ a (@NotASegment Q) = false /\
  (forall o, __ne__ a o = negb (__eq__ a o)).
Proof.
  unfold __eq__, clone, MediaSegment.__bool__, truthy, MediaSegment.int_truthy.
  cbn [eqb Q_Scalar MediaSegment.begin_sec MediaSegment.finish_sec
       MediaSegment.text_start_idx MediaSegment.text_end_idx].
  destruct a as [a1 a2 a3 a4], b as [b1 b2 b3 b4], c as [c1 c2 c3 c4].
  cbn [MediaSegment.begin_sec MediaSegment.finish_sec
       MediaSegment.text_start_idx MediaSegment.text_end_idx].
  repeat apply conj.
  - rewrite !Z.eqb_refl, !andb_true_r. apply andb_true_iff.
    split; apply Qeq_bool_iff; reflexivity.
  - rewrite (Qeq_bool_sym_eq a1 b1), (Qeq_bool_sym_eq a2 b2),
      (Z.eqb_sym a3 b3), (Z.eqb_sym a4 b4).
    reflexivity.
  - rewrite !andb_true_iff, !Z.eqb_eq, !Qeq_bool_iff.
    intros (((E1 & E2) & E3) & E4) (((F1 & F2) & F3) & F4).
    repeat split; first [etransitivity; eassumption | congruence].
  - rewrite !andb_true_iff, !Z.eqb_eq, !Qeq_bool_iff.
    intros (((E1 & E2) & E3) & E4). subst.
    rewrite (Qeq_bool_comp_l a1 b1 _ E1), (Qeq_bool_comp_l a2 b2 _ E2).
    reflexivity.
  - reflexivity.
  - reflexivity.
Qed.

End QFacts.

(** ** Configuration dicts *)

Section DictFacts.
Context {T : Type}.
Local Open Scope string_scope.

Lemma contains_get (data : Dict.t T) (key : string) :
  Dict.contains data key = true <-> exists v, Dict.get data key = Some v.
Proof.
  induction data as [|[k v] rest IH]; cbn [Dict.contains existsb Dict.get fst].
  - split; [discriminate|intros [? ?]; discriminate].
  - destruct (String.eqb key k); cbn [orb]; [split; eauto|exact IH].
Qed.

Lemma contains_app (d1 d2 : Dict.t T) (key : string) :
  Dict.contains (d1 ++ d2)%list key = Dict.contains d1 key || Dict.contains d2 key.
Proof. apply existsb_app. Qed.

Lemma get_app_l (d1 d2 : Dict.t T) (key : string) (v : Dict.value T) :
  Dict.get d1 key = Some v -> Dict.get (d1 ++ d2)%list key = Some v.
Proof.
  induction d1 as [|[k w] rest IH]; cbn [Dict.get app]; [discriminate|].
  destruct (String.eqb key k); auto.
Qed.

Lemma contains_setdefault (data : Dict.t T) (k key : string) (v : Dict.value T) :
  Dict.contains (Dict.setdefault data k v) key
  = Dict.contains data key || String.eqb key k.
Proof.
  unfold Dict.setdefault. destruct (Dict.contains data k) eqn:Ek.
  - destruct (String.eqb_spec key k) as [->|]; [|now rewrite orb_false_r].
    now rewrite Ek.
  - rewrite contains_app. cbn [Dict.contains existsb fst]. now rewrite orb_false_r.
Qed.

Lemma get_setdefault (data : Dict.t T) (k key : string) (v w : Dict.value T) :
  Dict.get data key = Some w -> Dict.get (Dict.setdefault data k v) key = Some w.
Proof.
  intros E. unfold Dict.setdefault. destruct (Dict.contains data k); [exact E|].
  now apply get_app_l.
Qed.

Lemma not_contains_get (data : Dict.t T) (key : string) :
  negb (Dict.contains data key) = true <-> Dict.get data key = None.
Proof.
  rewrite negb_true_iff. split.
  - intros E. destruct (Dict.get data key) eqn:G; [|reflexivity].
    assert (Dict.contains data key = true) by (apply contains_get; eauto). congruence.
  - intros G. destruct (Dict.contains data key) eqn:E; [|reflexivity].
    apply contains_get in E as [v E]. congruence.
Qed.

Lemma find_missing_In (data : Dict.t T) (required_keys : list string) (key : string) :
  In key (find_missing_dict_keys data required_keys) <->
  In key required_keys /\ Dict.get data key = None.
Proof.
  unfold find_missing_dict_keys. now rewrite filter_In, not_contains_get.
Qed.

Lemma missing_nil_get (config : Dict.t T) (required_keys : list string) (key : string) :
  find_missing_dict_keys config required_keys = [] ->
  In key required_keys ->
  exists v, Dict.get config key = Some v.
Proof.
  intros E Hin. destruct (Dict.get config key) eqn:G; [eauto|].
  assert (Hm : In key (find_missing_dict_keys config required_keys))
    by (apply find_missing_In; split; assumption).
  rewrite E in Hm. contradiction.
Qed.

(** [find_missing_dict_keys] returns, in their order, the required keys
    that are not in the dict and only those; it returns no key iff every
    required key is in the dict, and the more keys the dict has, the fewer
    are missing. *)
Theorem find_missing_dict_keys_exact (data : Dict.t T) (required_keys : list string) :
  (forall key,
     In key (find_missing_dict_keys data required_keys) <->
     In key required_keys /\ Dict.get data key = None) /\
  (find_missing_dict_keys data required_keys = [] <->
   forall key, In key required_keys -> exists v, Dict.get data key = Some v) /\
  (forall more key,
     In key (find_missing_dict_keys (data ++ more)%list required_keys) ->
     In key (find_missing_dict_keys data required_keys)).
Proof.
  split; [intros key; apply find_missing_In|]. split.
  - split.
    + intros E key. apply missing_nil_get, E.
    + intros Hall.
      destruct (find_missing_dict_keys data required_keys) as [|key l] eqn:E;
        [reflexivity|].
      assert (Hin : In key (find_missing_dict_keys data required_keys))
        by (rewrite E; now left).
      apply find_missing_In in Hin as [Hin Hk].
      destruct (Hall key Hin) as [v G]. congruence.
  - intros more key. unfold find_missing_dict_keys.
    rewrite !filter_In, !negb_true_iff, contains_app.
    intros [Hin E]. apply orb_false_iff in E. tauto.
Qed.

End DictFacts.

Section ConfigManagerFacts.
Context {T : Type} `{Scalar T}.
Local Open Scope string_scope.
Local Open Scope Z_scope.

(** [TextTilerConfigManager.check_valid_config] accepts a dict iff it has
    the five settings, [k] and [smoothing_width] are ints (and no bools),
    the pool methods and the cutoff policy are strings, and the values pass
    the checks; a dict with a missing setting is refused whatever the rest;
    and on the dict [text_tile] builds from its arguments it gives the
    verdict of the checks on the arguments. *)
Theorem tiler_config_dict_accepted (config : Dict.t T) :
  (TextTilerConfigManager.check_valid_config config = None <->
   exists k wc agg w policy,
     Dict.get config "k" = Some (Dict.PInt k) /\
     Dict.get config "window_compare_pool_method" = Some (Dict.PStr wc) /\
     Dict.get config "embedding_aggregation_pool_method" = Some (Dict.PStr agg) /\
     Dict.get config "smoothing_width" = Some (Dict.PInt w) /\
     Dict.get config "cutoff_policy" = Some (Dict.PStr policy) /\
     TextTiler.check_valid_config k wc agg w policy = None) /\
  (forall key,
     In key TextTilerConfigManager.required -> Dict.get config key = None ->
     TextTilerConfigManager.check_valid_config config
     = Some "TextTiler missing config settings") /\
  (forall k wc agg w policy,
     TextTilerConfigManager.check_valid_config
       (TextTilerConfigManager.config_of k wc agg w policy : Dict.t T)
     = TextTiler.check_valid_config k wc agg w policy) /\
  TextTilerConfigManager.is_valid_config config
  = match TextTilerConfigManager.assert_valid_config config with
    | Returns _ => true
    | _ => false
    end.
Proof.
  split; [|split; [|split]].
  - unfold TextTilerConfigManager.check_valid_config.
    destruct (find_missing_dict_keys config TextTilerConfigManager.required)
      as [|m ms] eqn:Em.
    + destruct (missing_nil_get _ _ "cutoff_policy" Em) as [vp Gp];
        [cbn; tauto|].
      destruct (missing_nil_get _ _ "embedding_aggregation_pool_method" Em)
        as [va Ga]; [cbn; tauto|].
      destruct (missing_nil_get _ _ "k" Em) as [vk Gk]; [cbn; tauto|].
      destruct (missing_nil_get _ _ "smoothing_width" Em) as [vw Gw]; [cbn; tauto|].
      destruct (missing_nil_get _ _ "window_compare_pool_method" Em) as [vc Gc];
        [cbn; tauto|].
      unfold TextTilerConfigManager.checked. rewrite Gp, Ga, Gk, Gw, Gc.
      split.
      * intros E.
        destruct vp as [| | | |policy]; try discriminate.
        cbn [TextTilerConfigManager.check_valid_cutoff_policy] in E.
        destruct (TextTiler.check_valid_cutoff_policy policy) eqn:E1;
          [discriminate|]. cbn [TextTiler.or_else] in E.
        destruct va as [| | | |agg]; try discriminate.
        cbn [TextTilerConfigManager.check_valid_pool_method] in E.
        destruct (TextTiler.check_valid_pool_method agg) eqn:E2;
          [discriminate|]. cbn [TextTiler.or_else] in E.
        destruct vk as [|b|k| |];
          try discriminate; [destruct b; discriminate|].
        cbn [TextTilerConfigManager.check_valid_k TextTilerConfigManager.as_int] in E.
        destruct (TextTiler.check_valid_k k) eqn:E3; [discriminate|].
        cbn [TextTiler.or_else] in E.
        destruct vw as [|b|w| |];
          try discriminate; [destruct b; discriminate|].
        cbn [TextTilerConfigManager.check_valid_smoothing_width
             TextTilerConfigManager.as_int] in E.
        destruct (TextTiler.check_valid_smoothing_width w) eqn:E4; [discriminate|].
        cbn [TextTiler.or_else] in E.
        destruct vc as [| | | |wc]; try discriminate.
        cbn [TextTilerConfigManager.check_valid_pool_method] in E.
        exists k, wc, agg, w, policy. repeat split.
        unfold TextTiler.check_valid_config. now rewrite E1, E2, E3, E4.
      * intros (k & wc & agg & w & policy & [= ->] & [= ->] & [= ->] & [= ->]
                & [= ->] & E).
        exact E.
    + split; [discriminate|].
      intros (k & wc & agg & w & policy & Gk & Gc & Ga & Gw & Gp & _).
      exfalso.
      assert (Hm : In m (find_missing_dict_keys config TextTilerConfigManager.required))
        by (rewrite Em; now left).
      apply find_missing_In in Hm as [Hin Hnone].
      cbn in Hin. decompose [or] Hin; subst; try congruence; contradiction.
  - intros key Hin Hnone. unfold TextTilerConfigManager.check_valid_config.
    destruct (find_missing_dict_keys config TextTilerConfigManager.required)
      as [|m ms] eqn:Em; [|reflexivity].
    destruct (missing_nil_get _ _ key Em Hin) as [v G]. congruence.
  - intros k wc agg w policy. reflexivity.
  - unfold TextTilerConfigManager.is_valid_config,
      TextTilerConfigManager.assert_valid_config.
    now destruct (TextTilerConfigManager.check_valid_config config).
Qed.

(** *** ClipFinderConfigManager *)

Lemma contains_impute (config : Dict.t T) (key : string) :
  Dict.contains (ClipFinderConfigManager.impute_default_config config) key
  = Dict.contains config key
    || existsb (fun kv => String.eqb key (fst kv))
               (@ClipFinderConfigManager.defaults T).
Proof.
  unfold ClipFinderConfigManager.impute_default_config.
  generalize (@ClipFinderConfigManager.defaults T). intros ds. revert config.
  induction ds as [|[k v] ds IH]; intros config; cbn [fold_left existsb fst snd].
  - now rewrite orb_false_r.
  - rewrite IH, contains_setdefault. now rewrite orb_assoc.
Qed.

Lemma get_impute (config : Dict.t T) (key : string) (w : Dict.value T) :
  Dict.get config key = Some w ->
  Dict.get (ClipFinderConfigManager.impute_default_config config) key = Some w.
Proof.
  unfold ClipFinderConfigManager.impute_default_config.
  generalize (@ClipFinderConfigManager.defaults T). intros ds. revert config.
  induction ds as [|[k v] ds IH]; intros config G; cbn [fold_left fst snd];
    [exact G|].
  apply IH. now apply get_setdefault.
Qed.

(** [impute_default_config] leaves every setting that is there as it is,
    and it fills in neither [min_clip_duration] nor [max_clip_duration]
    (its defaults are named [min_clip_time] and [max_clip_time]): after it,
    the required settings still missing are exactly those two, where they
    were missing before. *)
Theorem impute_default_config_leaves_durations_missing (config : Dict.t T) :
  (forall key v,
     Dict.get config key = Some v ->
     Dict.get (ClipFinderConfigManager.impute_default_config config) key = Some v) /\
  find_missing_dict_keys (ClipFinderConfigManager.impute_default_config config)
    ClipFinderConfigManager.required
  = find_missing_dict_keys config ["max_clip_duration"; "min_clip_duration"].
Proof.
  split; [intros key v; apply get_impute|].
  unfold find_missing_dict_keys, ClipFinderConfigManager.required.
  cbn [filter]. rewrite !contains_impute.
  cbn [existsb ClipFinderConfigManager.defaults fst String.eqb Ascii.eqb Bool.eqb
       andb orb].
  rewrite !orb_true_r, !orb_false_r. cbn [negb]. reflexivity.
Qed.

(** [ClipFinderConfigManager.check_valid_config] never finds a dict valid:
    it returns a message when a required setting is missing or the clip
    durations are out of order, raises [TypeError] when a duration is no
    number, and otherwise raises [AttributeError], because the validators
    it looks up on itself include two methods no class of its has.  So
    [assert_valid_config], the first step of [ClipFinder.__init__], always
    raises. *)
Theorem clip_finder_config_never_valid (cfg : Dict.t T) :
  ((exists msg,
      ClipFinderConfigManager.check_valid_config cfg = Returns (Some msg)) \/
   ClipFinderConfigManager.check_valid_config cfg = Raises Exn.TypeError \/
   ClipFinderConfigManager.check_valid_config cfg = Raises Exn.AttributeError) /\
  (exists e, ClipFinderConfigManager.assert_valid_config cfg = Raises e) /\
  (forall min_dur max_dur lo hi,
     find_missing_dict_keys cfg ClipFinderConfigManager.required = [] ->
     Dict.get cfg "min_clip_duration" = Some min_dur ->
     Dict.get cfg "max_clip_duration" = Some max_dur ->
     TextTilerConfigManager.as_number min_dur = Some lo ->
     TextTilerConfigManager.as_number max_dur = Some hi ->
     ltb lo (of_Z 0) = false -> leb hi lo = false ->
     ClipFinderConfigManager.check_valid_config cfg = Raises Exn.AttributeError).
Proof.
  assert (Hcases :
            (exists msg,
               ClipFinderConfigManager.check_valid_config cfg = Returns (Some msg)) \/
            ClipFinderConfigManager.check_valid_config cfg = Raises Exn.TypeError \/
            ClipFinderConfigManager.check_valid_config cfg = Raises Exn.AttributeError).
  { unfold ClipFinderConfigManager.check_valid_config.
    destruct (find_missing_dict_keys cfg ClipFinderConfigManager.required);
      [|left; eauto].
    destruct (Dict.get cfg "min_clip_duration") as [min_dur|]; [|left; eauto].
    destruct (Dict.get cfg "max_clip_duration") as [max_dur|]; [|left; eauto].
    unfold ClipFinderConfigManager.check_valid_clip_times.
    destruct (TextTilerConfigManager.as_number min_dur) as [lo|]; [|right; now left].
    destruct (ltb lo (of_Z 0)); [left; eauto|].
    destruct (TextTilerConfigManager.as_number max_dur) as [hi|]; [|right; now left].
    destruct (leb hi lo); [left; eauto|].
    right. right. reflexivity. }
  split; [exact Hcases|]. split.
  - unfold ClipFinderConfigManager.assert_valid_config.
    destruct Hcases as [[msg ->]|[->| ->]]; eauto.
  - intros min_dur max_dur lo hi Em Gmin Gmax Elo Ehi Hlo Hhi.
    unfold ClipFinderConfigManager.check_valid_config.
    rewrite Em, Gmin, Gmax.
    unfold ClipFinderConfigManager.check_valid_clip_times.
    rewrite Elo, Hlo, Ehi, Hhi. reflexivity.
Qed.

(** The two configurations of [tests/test_clip.py] for the tiler: the
    first is accepted, the second is not. *)
Example test_valid_texttiler_config :
  TextTilerConfigManager.check_valid_config
    ([ ("k", Dict.PInt 5); ("cutoff_policy", Dict.PStr "high");
       ("embedding_aggregation_pool_method", Dict.PStr "max");
       ("smoothing_width", Dict.PInt 3);
       ("window_compare_pool_method", Dict.PStr "mean") ] : Dict.t T) = None.
Proof. reflexivity. Qed.

Example test_invalid_texttiler_config :
  TextTilerConfigManager.is_valid_config
    ([ ("k", Dict.PInt 1); ("cutoff_policy", Dict.PStr "invalid_policy");
       ("embedding_aggregation_pool_method", Dict.PStr "invalid_method");
       ("smoothing_width", Dict.PInt 1);
       ("window_compare_pool_method", Dict.PStr "invalid_method") ] : Dict.t T)
  = false.
Proof. reflexivity. Qed.

End ConfigManagerFacts.

(** ** The transcript *)

Section TranscriptionFacts.
Context {T : Type} `{Scalar T}.
Import Transcription.
Local Open Scope Z_scope.

Lemma first_time_stamp_spec (chars : list (timed T)) :
  match first_time_stamp chars with
  | None => Forall (fun ch => start_time ch = None /\ end_time ch = None) chars
  | Some t =>
    exists before ch after,
      chars = (before ++ ch :: after)%list /\
      Forall (fun ch => start_time ch = None /\ end_time ch = None) before /\
      (end_time ch = Some t \/ (end_time ch = None /\ start_time ch = Some t))
  end.
Proof.
  induction chars as [|ch rest IH]; cbn [first_time_stamp]; [constructor|].
  destruct (end_time ch) as [t|] eqn:Ee.
  { exists [], ch, rest. repeat split; [constructor|now left]. }
  destruct (start_time ch) as [t|] eqn:Es.
  { exists [], ch, rest. repeat split; [constructor|now right]. }
  destruct (first_time_stamp rest) as [t|].
  - destruct IH as (before & ch' & after & -> & Hb & Ht).
    exists (ch :: before), ch', after. repeat split; [|exact Ht].
    constructor; [split|]; assumption.
  - constructor; [split|]; assumption.
Qed.

(** [Transcription.end_time] is the last time stamp of the transcript: the
    end time of the last character that has a time stamp, or its start
    time if it has no end time; it is [None] (nothing is returned) iff no
    character has any time stamp. *)
Theorem end_time_is_last_time_stamp (chars : list (timed T)) :
  (transcription_end_time chars = None <->
   Forall (fun ch => start_time ch = None /\ end_time ch = None) chars) /\
  (forall t,
     transcription_end_time chars = Some t ->
     exists before ch after,
       chars = (before ++ ch :: after)%list /\
       Forall (fun ch => start_time ch = None /\ end_time ch = None) after /\
       (end_time ch = Some t \/ (end_time ch = None /\ start_time ch = Some t))).
Proof.
  unfold transcription_end_time.
  pose proof (first_time_stamp_spec (rev chars)) as Hs. split.
  - split.
    + intros E. rewrite E in Hs. apply Forall_rev in Hs. now rewrite rev_involutive in Hs.
    + intros Hall. destruct (first_time_stamp (rev chars)) as [t|]; [|reflexivity].
      destruct Hs as (before & ch & after & E & _ & Ht). exfalso.
      assert (Hin : In ch chars) by (apply in_rev; rewrite E; apply in_elt).
      rewrite Forall_forall in Hall. destruct (Hall ch Hin) as [H1 H2].
      destruct Ht as [Ht|[_ Ht]]; congruence.
  - intros t E. rewrite E in Hs. destruct Hs as (before & ch & after & Er & Hb & Ht).
    exists (rev after), ch, (rev before). repeat split.
    + rewrite <- (rev_involutive chars), Er, rev_app_distr. cbn [rev].
      now rewrite <- app_assoc.
    + now apply Forall_rev.
    + exact Ht.
Qed.

(** *** The binary search *)

Lemma then_Returns_inv {A B} (m : outcome A) (f : A -> outcome B) (b : B) :
  then_ m f = Returns b -> exists a, m = Returns a /\ f a = Returns b.
Proof. destruct m; cbn; intros E; try discriminate. eauto. Qed.

(** The loop never runs out of iterations, never indexes out of range, and
    returns an index between [left - 1] and [right + 1]. *)
Lemma search_in_range (data : list (timed T)) (target : option T) (mode : string) :
  forall (fuel : nat) (left right : Z),
    0 <= left -> right < Z.of_nat (length data) -> left <= right + 1 ->
    right - left + 1 <= Z.of_nat fuel ->
    (exists r, search fuel data target mode left right = Returns r /\
               left - 1 <= r <= right + 1) \/
    search fuel data target mode left right = Raises Exn.TypeError.
Proof.
  induction fuel as [|fuel IH]; intros left right Hl Hr Hlr Hf; cbn [search].
  - destruct (Z.leb_spec left right); [lia|].
    left. eexists. split; [reflexivity|]. destruct (String.eqb mode "start"); lia.
  - destruct (Z.leb_spec left right) as [Hle|Hgt].
    2:{ left. eexists. split; [reflexivity|]. destruct (String.eqb mode "start"); lia. }
    assert (Hmid : left <= (left + right) / 2 <= right).
    { split; [apply Z.div_le_lower_bound|apply Z.div_le_upper_bound]; lia. }
    destruct (nth_error data (Z.to_nat ((left + right) / 2))) as [item|] eqn:En.
    2:{ apply nth_error_None in En. lia. }
    destruct target as [target|].
    2:{ right. now destruct (start_time item). }
    destruct (start_time item) as [s|]; cbn [opt_leb then_]; [|now right].
    destruct (leb s target).
    + destruct (end_time item) as [e|]; cbn [opt_leb opt_gtb then_]; [|now right].
      destruct (leb target e); [left; eexists; split; [reflexivity|lia]|].
      destruct (ltb e target).
      * destruct (IH ((left + right) / 2 + 1) right) as [(r & Er & Hr')|Er];
          try lia; [left; exists r; split; [exact Er|lia]|now right].
      * destruct (IH left ((left + right) / 2 - 1)) as [(r & Er & Hr')|Er];
          try lia; [left; exists r; split; [exact Er|lia]|now right].
    + cbn [then_].
      destruct (end_time item) as [e|]; cbn [opt_gtb then_]; [|now right].
      destruct (ltb e target).
      * destruct (IH ((left + right) / 2 + 1) right) as [(r & Er & Hr')|Er];
          try lia; [left; exists r; split; [exact Er|lia]|now right].
      * destruct (IH left ((left + right) / 2 - 1)) as [(r & Er & Hr')|Er];
          try lia; [left; exists r; split; [exact Er|lia]|now right].
Qed.

(** [_binary_search] always comes to an end: it returns an index between
    [-1] and [len(data)], both included, or it raises the [TypeError] of a
    comparison with a time stamp that is [None]; on an empty list it
    returns [-1] for the mode ["start"] and [0] for any other mode. *)
Theorem binary_search_index_range
    (data : list (timed T)) (target : option T) (mode : string) :
  ((exists r, _binary_search data target mode = Returns r /\
              -1 <= r <= Z.of_nat (length data)) \/
   _binary_search data target mode = Raises Exn.TypeError) /\
  _binary_search [] target mode
  = Returns (if String.eqb mode "start" then -1 else 0).
Proof.
  split; [|reflexivity].
  unfold _binary_search.
  destruct (search_in_range data target mode (length data) 0
              (Z.of_nat (length data) - 1)) as [(r & Er & Hr)|Er]; try lia.
  - left. exists r. split; [exact Er|lia].
  - now right.
Qed.

End TranscriptionFacts.

(** *** The binary search over exact rationals *)

Module QSearch.
Import QNum Transcription QFacts Entries.
Local Open Scope Q_scope.

Lemma StronglySorted_nth (l : list Q) (d : Q) :
  StronglySorted Qle l ->
  forall i j, (i <= j < length l)%nat -> nth i l d <= nth j l d.
Proof.
  induction 1 as [|x l Hs IH Hx]; intros i j Hij; [cbn in Hij; lia|].
  destruct i as [|i], j as [|j]; cbn [nth length] in *; try lia.
  - apply Qle_refl.
  - rewrite Forall_forall in Hx. apply Hx, nth_In. lia.
  - apply IH. lia.
Qed.

Section SortedEntries.
Variable intervals : list (Q * Q).
Variable target : Q.
Variable mode : string.
Hypothesis starts_sorted : StronglySorted Qle (map fst intervals).
Hypothesis ends_sorted : StronglySorted Qle (map snd intervals).

Lemma nth_error_entry (i : Z) :
  (0 <= i < Z.of_nat (length intervals))%Z ->
  nth_error (map entry intervals) (Z.to_nat i)
  = Some (Timed (Some (start_of intervals i)) (Some (end_of intervals i))).
Proof.
  intros Hi. unfold start_of, end_of.
  rewrite nth_error_map.
  destruct (nth_error intervals (Z.to_nat i)) as [p|] eqn:En.
  2:{ apply nth_error_None in En. lia. }
  cbn [option_map]. unfold entry.
  rewrite (nth_indep _ 0 (fst p)), (nth_indep _ 0 (snd p))
    by (rewrite length_map; lia).
  rewrite !map_nth with (d := p), (nth_error_nth _ _ _ En). reflexivity.
Qed.

Lemma search_sorted :
  forall (fuel : nat) (left right : Z),
    (0 <= left)%Z -> (right < Z.of_nat (length intervals))%Z ->
    (left <= right + 1)%Z ->
    (right - left + 1 <= Z.of_nat fuel)%Z ->
    (forall i, (0 <= i < left)%Z -> end_of intervals i < target) ->
    (forall i, (right < i < Z.of_nat (length intervals))%Z ->
               target < start_of intervals i) ->
    exists r,
      search fuel (map entry intervals) (Some target) mode left right = Returns r /\
      answers intervals target mode r.
Proof.
  induction fuel as [|fuel IH]; intros left right Hl Hr Hlr Hf Hbelow Habove;
    cbn [search].
  - destruct (Z.leb_spec left right); [lia|].
    eexists. split; [reflexivity|]. right. exists left.
    repeat split; try lia; try assumption.
    + intros i Hi. apply Habove. lia.
    + destruct (String.eqb mode "start"); lia.
  - destruct (Z.leb_spec left right) as [Hle|Hgt].
    2:{ eexists. split; [reflexivity|]. right. exists left.
        repeat split; try lia; try assumption.
        - intros i Hi. apply Habove. lia.
        - destruct (String.eqb mode "start"); lia. }
    set (mid := ((left + right) / 2)%Z).
    assert (Hmid : (left <= mid <= right)%Z).
    { unfold mid. split; [apply Z.div_le_lower_bound|apply Z.div_le_upper_bound]; lia. }
    rewrite nth_error_entry by lia.
    cbn [Transcription.start_time Transcription.end_time opt_leb opt_gtb then_
         leb ltb Q_Scalar].
    assert (Hup : end_of intervals mid < target ->
                  forall i, (0 <= i < mid + 1)%Z -> end_of intervals i < target).
    { intros He i Hi. apply Qle_lt_trans with (end_of intervals mid); [|exact He].
      unfold end_of. apply StronglySorted_nth; [exact ends_sorted|].
      rewrite length_map. lia. }
    assert (Hdown : target < start_of intervals mid ->
                    forall i, (mid - 1 < i < Z.of_nat (length intervals))%Z ->
                              target < start_of intervals i).
    { intros Hs i Hi. apply Qlt_le_trans with (start_of intervals mid); [exact Hs|].
      unfold start_of. apply StronglySorted_nth; [exact starts_sorted|].
      rewrite length_map. lia. }
    destruct (Qle_bool (start_of intervals mid) target) eqn:Es.
    + destruct (Qle_bool target (end_of intervals mid)) eqn:Ee; cbn [then_].
      * exists mid. split; [reflexivity|]. left.
        apply Qle_bool_iff in Es, Ee. repeat split; try lia; assumption.
      * destruct (qltb (end_of intervals mid) target) eqn:El.
        -- apply qltb_true in El. apply IH; try lia; auto.
        -- apply qltb_false in El. apply Qle_bool_iff in El. congruence.
    + cbn [then_]. destruct (qltb (end_of intervals mid) target) eqn:El.
      * apply qltb_true in El. apply IH; try lia; auto.
      * apply IH; try lia; try assumption.
        apply Hdown. apply Qnot_le_lt. intros Hle'. apply Qle_bool_iff in Hle'.
        congruence.
Qed.

End SortedEntries.

(** On entries whose start times and whose end times are in ascending
    order, [_binary_search] returns the index of an entry that contains the
    target, whenever there is one.  When there is none, the entries before
    some index [L] all end before the target and the entries from [L] on
    all start after it; the mode ["start"] then returns [L - 1] (which is
    [-1] when the target is before every entry) and any other mode [L]
    (which is [len(data)] when it is after every entry). *)
Theorem binary_search_finds_the_entry
    (intervals : list (Q * Q)) (target : Q) (mode : string) :
  StronglySorted Qle (map fst intervals) ->
  StronglySorted Qle (map snd intervals) ->
  exists r,
    _binary_search (map entry intervals) (Some target) mode = Returns r /\
    answers intervals target mode r.
Proof.
  intros Hs He. unfold _binary_search. rewrite length_map.
  apply (search_sorted intervals target mode Hs He); try lia.
Qed.

Lemma slice_from_last {A} (l : list A) (k : Z) :
  Py.slice l (-1) k = [] \/ Py.slice l (-1) k = skipn (length l - 1) l.
Proof.
  unfold Py.slice. set (len := Z.of_nat (length l)).
  set (b := Py.adjust len k false).
  destruct (Nat.eq_dec (length l) 0) as [E0|Hpos].
  - left. apply length_zero_iff_nil in E0. subst l.
    now rewrite skipn_nil, firstn_nil.
  - assert (Hlen : (0 < len)%Z) by (unfold len; lia).
    assert (Ha : Py.adjust len (-1) false = (len - 1)%Z).
    { unfold Py.adjust. change (-1 <? 0)%Z with true. cbv iota.
      destruct (Z.ltb_spec (-1 + len) 0); lia. }
    rewrite Ha. replace (Z.to_nat (len - 1)) with (length l - 1)%nat by (unfold len; lia).
    destruct (Z.leb_spec b (len - 1)) as [Hb|Hb].
    + left. replace (Z.to_nat (b - (len - 1))) with 0%nat by lia. reflexivity.
    + right. apply firstn_all2. rewrite length_skipn. unfold len in *. lia.
Qed.

(** When the start of a valid time range lies before the first entry (the
    first word, say, begins after second 0 and [start] is 0), the look-up of
    [start] answers [-1], and the slice [items[-1:end_idx + 1]] that
    [get_char_info], [get_word_info] and [get_sentence_info] then return
    counts from the end of the list: the result is empty, or the last entry
    alone, whatever entries the range covers. *)
Theorem get_info_start_before_first_entry
    (chars : list (timed Q)) (intervals : list (Q * Q)) (start finish t : Q) :
  StronglySorted Qle (map fst intervals) ->
  StronglySorted Qle (map snd intervals) ->
  Forall (fun p => fst p <= snd p) intervals ->
  Forall (fun p => start < fst p) intervals ->
  0 <= start -> start < finish ->
  transcription_end_time chars = Some t -> finish <= t ->
  let items := map entry intervals in
  exists l,
    get_info chars items (Some start) (Some finish) = Returns l /\
    (l = [] \/ l = skipn (length items - 1) items).
Proof.
  intros Hs He Hwf Hbefore H0 Hlt Hend Hfin items.
  unfold get_info, _validate_time_range.
  cbn [ltb leb of_Z Q_Scalar].
  replace (qltb start (inject_Z 0)) with false
    by (symmetry; apply qltb_false; exact H0).
  replace (Qle_bool finish start) with false.
  2:{ symmetry. destruct (Qle_bool finish start) eqn:E; [|reflexivity].
      apply Qle_bool_iff in E. exfalso. exact (Qlt_not_le _ _ Hlt E). }
  rewrite Hend. cbn [opt_gtb then_ ltb Q_Scalar].
  replace (qltb t finish) with false by (symmetry; apply qltb_false; exact Hfin).
  cbn [then_]. unfold _slice_info, _binary_search, items. rewrite !length_map.
  destruct (search_sorted intervals start "start" Hs He (length intervals) 0
              (Z.of_nat (length intervals) - 1)) as (r & Hr & Hcase);
    try lia; try (intros i Hi; lia).
  destruct (search_sorted intervals finish "end" Hs He (length intervals) 0
              (Z.of_nat (length intervals) - 1)) as (r2 & Hr2 & _);
    try lia; try (intros i Hi; lia).
  rewrite Hr. cbn [then_]. rewrite Hr2. cbn [then_].
  eexists. split; [reflexivity|].
  assert (Hnth : forall i, (0 <= i < Z.of_nat (length intervals))%Z ->
                 start < start_of intervals i /\
                 start_of intervals i <= end_of intervals i).
  { intros i Hi. unfold start_of, end_of.
    destruct (nth_error intervals (Z.to_nat i)) as [p|] eqn:En.
    2:{ apply nth_error_None in En. lia. }
    rewrite (nth_indep _ 0 (fst p)), (nth_indep (map snd intervals) 0 (snd p))
      by (rewrite length_map; lia).
    rewrite !map_nth with (d := p), (nth_error_nth _ _ _ En).
    apply nth_error_In in En. rewrite Forall_forall in Hwf, Hbefore. auto. }
  assert (Er : r = (-1)%Z).
  { destruct Hcase as [(Hin & Hsr & _)|(L & HL & Hbelow & _ & EL)].
    - exfalso. destruct (Hnth r Hin) as (Hb & _).
      exact (Qlt_not_le _ _ Hb Hsr).
    - cbn in EL. destruct (Z.eq_dec L 0) as [->|HL0]; [exact EL|].
      exfalso. destruct (Hnth 0%Z) as (Hb & Hw); [lia|].
      specialize (Hbelow 0%Z ltac:(lia)).
      exact (Qlt_not_le _ _ (Qlt_trans _ _ _ Hbelow Hb) Hw). }
  subst r. rewrite <- (length_map entry intervals).
  apply slice_from_last.
Qed.

End QSearch.

(* ================================================================== *)
(** ** Runs of the further properties, over exact rationals *)

Module FurtherRuns.
Import QNum ClipFinder Examples Entries.
Local Open Scope string_scope.
Local Open Scope Z_scope.

(** The ten embeddings of the small transcript are neither too few nor one
    more than the smoothing width: the detector returns. *)
Lemma text_tile_outcome_by_length_witness :
  TextTiler.check_valid_config 5 "mean" "max" 3 "high" = None /\
  is_ok (TextTiler.text_tile (two_topics Q) 5 "mean" "max" 3 "high") = true.
Proof.
  split; [reflexivity|].
  apply (text_tile_outcome_by_length (two_topics Q) 5 "mean" "max" 3 "high").
  - reflexivity.
  - simpl. lia.
  - simpl. lia.
Defined.

(** Three scores under a window of width three. *)
Lemma smooth_window_sized_input_loses_one_witness :
  exists y, TextTiler.smooth [1; 2; 3]%Q 3 = Ok y /\ S (length y) = 3%nat.
Proof.
  apply (smooth_window_sized_input_loses_one [1; 2; 3]%Q 3).
  - lia.
  - reflexivity.
Defined.

(** Ten sentences are at most [8 * 2 ^ 1]: one round is enough. *)
Lemma rounds_halve_the_sequence_witness :
  halts (rounds 1 (default_finder Q) (sentences Q 1 10) (two_topics Q) 5
           15%Q 900%Q []) = true.
Proof.
  apply (@rounds_halve_the_sequence Q Q_Scalar (default_finder Q) (sentences Q 1 10)
           (two_topics Q) 5 15%Q 900%Q [] QFacts.qltb_asym).
  simpl. lia.
Defined.

(** The round on the small transcript: two clips, from the first sentence
    to the last. *)
Lemma text_tile_round_covers_witness :
  exists super_clips super_embeddings,
    _text_tile (default_finder Q) (sentences Q 1 10) (two_topics Q) 5
      = Ok (super_clips, super_embeddings) /\
    length super_clips = 2%nat /\
    Forall (aligned (sentences Q 1 10)) super_clips.
Proof.
  eexists. eexists. split; [vm_compute; reflexivity|].
  split; [reflexivity|].
  apply (text_tile_round_covers (default_finder Q) (sentences Q 1 10)
           (two_topics Q) 5 _ [[5; 1]; [-5; 1]]%Q).
  vm_compute. reflexivity.
Defined.

(** The small transcript at ten seconds per sentence, with the default
    settings. *)
Lemma find_clips_segments_on_sentence_bounds_witness :
  exists segs tiled,
    find_clips (default_finder Q) (talk Q 10) = Ok segs /\
    segs = (map to_segment (initial_clips (default_finder Q) (talk Q 10)) ++ tiled)%list /\
    Forall (fun s =>
              (exists u, In u (sentence_info (talk Q 10)) /\
                 MediaSegment.begin_sec s = start_time u /\
                 MediaSegment.text_start_idx s = start_char u) /\
              (exists v, In v (sentence_info (talk Q 10)) /\
                 MediaSegment.finish_sec s = end_time v /\
                 MediaSegment.text_end_idx s = end_char v))
           tiled.
Proof.
  destruct (find_clips (default_finder Q) (talk Q 10)) as [segs| |] eqn:E;
    [|vm_compute in E; discriminate E..].
  exists segs.
  destruct (find_clips_segments_on_sentence_bounds (default_finder Q) (talk Q 10) segs E)
    as (tiled & Hsegs & Hall).
  exists tiled. split; [reflexivity|]. split; assumption.
Defined.

(** A transcript of three sentences: the seed segment and nothing else. *)
Lemma find_clips_without_rounds_witness :
  find_clips (default_finder Q)
    {| sentence_info := sentences Q 1 3;
       sentence_embeddings := firstn 3 (two_topics Q);
       transcription_end_time := 3%Q;
       num_chars := 30 |}
  = Ok [segment Q 0 3 0 30].
Proof.
  refine (eq_trans (find_clips_without_rounds (default_finder Q) _ _) _).
  - simpl. lia.
  - vm_compute. reflexivity.
Defined.

(** The first column of the ten embeddings. *)
Lemma max_magnitude_2d_is_largest_witness :
  Forall (fun y => (Qabs y <= Qabs (nth 0 (max_magnitude_2d (two_topics Q)) 0))%Q)
         (column (two_topics Q) 0).
Proof.
  apply (QFacts.max_magnitude_2d_is_largest (two_topics Q) 0).
  vm_compute. lia.
Defined.

(** Three entries, one second each, and a look-up inside the second. *)
Lemma binary_search_finds_the_entry_witness :
  exists r,
    Transcription._binary_search (map entry [(0, 1); (1, 2); (2, 3)]%Q)
      (Some (3 # 2)%Q) "start" = Returns r /\
    answers [(0, 1); (1, 2); (2, 3)]%Q (3 # 2)%Q "start" r.
Proof.
  apply (QSearch.binary_search_finds_the_entry [(0, 1); (1, 2); (2, 3)]%Q
           (3 # 2)%Q "start");
    repeat first [ apply SSorted_nil | apply SSorted_cons
                 | apply Forall_nil | apply Forall_cons
                 | (cbv; discriminate) | (cbv; reflexivity) ].
Defined.

(** Three words, the first of which begins after one second, and the
    range from 0 to 3: the words of the first three seconds are asked for,
    and none is returned. *)
Lemma get_info_start_before_first_entry_witness :
  exists l,
    Transcription.get_info (map entry [(1, 2); (2, 3); (3, 4)]%Q)
      (map entry [(1, 2); (2, 3); (3, 4)]%Q) (Some 0%Q) (Some 3%Q) = Returns l /\
    (l = [] \/
     l = skipn (length (map entry [(1, 2); (2, 3); (3, 4)]%Q) - 1)
           (map entry [(1, 2); (2, 3); (3, 4)]%Q)).
Proof.
  apply (QSearch.get_info_start_before_first_entry
           (map entry [(1, 2); (2, 3); (3, 4)]%Q) [(1, 2); (2, 3); (3, 4)]%Q
           0%Q 3%Q 4%Q);
    try reflexivity;
    repeat first [ apply SSorted_nil | apply SSorted_cons
                 | apply Forall_nil | apply Forall_cons
                 | (cbv; discriminate) | (cbv; reflexivity) ].
Defined.

(** ... and what that call returns. *)
Example get_info_start_before_first_entry_run :
  Transcription.get_info (map entry [(1, 2); (2, 3); (3, 4)]%Q)
    (map entry [(1, 2); (2, 3); (3, 4)]%Q) (Some 0%Q) (Some 3%Q) = Returns [].
Proof. vm_compute. reflexivity. Qed.

(** The settings [ClipFinder.__init__] has by default: every check made
    before the validators are looked up passes, and the look-up raises. *)
Example default_settings_raise_AttributeError :
  ClipFinderConfigManager.assert_valid_config
    [ ("cutoff_policy", Dict.PStr "high");
      ("embedding_aggregation_pool_method", Dict.PStr "max");
      ("max_clip_duration", Dict.PInt 900);
      ("min_clip_duration", Dict.PInt 15);
      ("smoothing_width", Dict.PInt 3);
      ("window_compare_pool_method", (Dict.PStr "mean" : Dict.value Q)) ]
  = Raises Exn.AttributeError.
Proof. vm_compute. reflexivity. Qed.

End FurtherRuns.

(** ** ... and over binary64 *)

Module FurtherFloatRuns.
Import FloatNum.
Local Open Scope Z_scope.

(** [clone] copies the fields and [__eq__] compares them with [==]: over
    the floats a segment that holds a NaN is not equal to its clone, which
    over the exact rationals every segment is. *)
Example nan_segment_not_equal_to_its_clone_binary64 :
  let s := MediaSegment.Build nan 1%float 0 10 in
  MediaSegmentMethods.__eq__ s (MediaSegmentMethods.Segment (MediaSegmentMethods.clone s))
  = false.
Proof. vm_compute. reflexivity. Qed.

End FurtherFloatRuns.
